(** * eaton-epdu: a shallow embedding of [eaton-epdu.py]

    The script drives an Eaton ePDU over an interactive SSH shell.  This
    development embeds the [ePDU] class and [main] as functions over an
    explicit program state (the [ePDU] object and the outside world: the
    SSH channel, the device's scripted output and the terminal), and checks
    the properties the specification states about them.

    Layout: Python values (text, bytes, UTF-8, [bytes.strip], [int], the
    [re] fragment the script uses), then exceptions and the state monad,
    the SSH world, the [ePDU] methods, [main], and finally the theorems. *)

From Stdlib Require Import List ZArith NArith Bool Lia String Ascii.
From Stdlib Require Import Strings.Byte.
From Stdlib Require Import DecimalString.
Import ListNotations.

Set Implicit Arguments.

(** ** Text and bytes

    A Python [str] is a sequence of Unicode code points, a [bytes] object a
    sequence of bytes. *)

Definition codepoint := N.
Definition str := list codepoint.
Definition bytes := list byte.

(** Literals of the source, written as Rocq strings of ASCII characters. *)
Definition ustr (lit : string) : str :=
  map N_of_ascii (list_ascii_of_string lit).

Definition blit (lit : string) : bytes := list_byte_of_string lit.

Definition CR : codepoint := 13%N.
Definition LF : codepoint := 10%N.

Definition byte_of_N (n : N) : byte :=
  match Byte.of_N n with Some b => b | None => x00 end.

Fixpoint str_eqb (a b : str) : bool :=
  match a, b with
  | [], [] => true
  | x :: a', y :: b' => N.eqb x y && str_eqb a' b'
  | _, _ => false
  end.

Definition mem_byte (x : byte) (set : bytes) : bool :=
  existsb (Byte.eqb x) set.

(** *** UTF-8, as [str.encode('utf-8')] and [bytes.decode('utf-8')] do it
    (error handler [strict]: [None] stands for the Unicode error raised). *)

Definition utf8_encode_cp (c : codepoint) : option bytes :=
  (if c <? 0x80 then Some [byte_of_N c]
   else if c <? 0x800 then
     Some [byte_of_N (0xC0 + c / 64); byte_of_N (0x80 + c mod 64)]
   else if c <? 0x10000 then
     if (0xD800 <=? c) && (c <=? 0xDFFF) then None
     else Some [byte_of_N (0xE0 + c / 4096);
                byte_of_N (0x80 + (c / 64) mod 64);
                byte_of_N (0x80 + c mod 64)]
   else if c <? 0x110000 then
     Some [byte_of_N (0xF0 + c / 262144);
           byte_of_N (0x80 + (c / 4096) mod 64);
           byte_of_N (0x80 + (c / 64) mod 64);
           byte_of_N (0x80 + c mod 64)]
   else None)%N.

Fixpoint utf8_encode (s : str) : option bytes :=
  match s with
  | [] => Some []
  | c :: s' =>
      match utf8_encode_cp c, utf8_encode s' with
      | Some b, Some r => Some (b ++ r)
      | _, _ => None
      end
  end.

Definition in_range (lo hi : N) (b : byte) : bool :=
  (lo <=? Byte.to_N b)%N && (Byte.to_N b <=? hi)%N.

Definition cont_bits (b : byte) : N := (Byte.to_N b - 0x80)%N.

Fixpoint utf8_decode (b : bytes) : option str :=
  match b with
  | [] => Some []
  | b0 :: r0 =>
      let n0 := Byte.to_N b0 in
      if (n0 <? 0x80)%N then option_map (cons n0) (utf8_decode r0)
      else if in_range 0xC2 0xDF b0 then
        match r0 with
        | b1 :: r1 =>
            if in_range 0x80 0xBF b1
            then option_map (cons ((n0 - 0xC0) * 64 + cont_bits b1)%N)
                            (utf8_decode r1)
            else None
        | _ => None
        end
      else if in_range 0xE0 0xEF b0 then
        match r0 with
        | b1 :: b2 :: r2 =>
            let lo := if (n0 =? 0xE0)%N then 0xA0%N else 0x80%N in
            let hi := if (n0 =? 0xED)%N then 0x9F%N else 0xBF%N in
            if in_range lo hi b1 && in_range 0x80 0xBF b2
            then option_map
                   (cons ((n0 - 0xE0) * 4096 + cont_bits b1 * 64
                          + cont_bits b2)%N)
                   (utf8_decode r2)
            else None
        | _ => None
        end
      else if in_range 0xF0 0xF4 b0 then
        match r0 with
        | b1 :: b2 :: b3 :: r3 =>
            let lo := if (n0 =? 0xF0)%N then 0x90%N else 0x80%N in
            let hi := if (n0 =? 0xF4)%N then 0x8F%N else 0xBF%N in
            if in_range lo hi b1 && in_range 0x80 0xBF b2
               && in_range 0x80 0xBF b3
            then option_map
                   (cons ((n0 - 0xF0) * 262144 + cont_bits b1 * 4096
                          + cont_bits b2 * 64 + cont_bits b3)%N)
                   (utf8_decode r3)
            else None
        | _ => None
        end
      else None
  end.

(** *** [bytes.strip([chars])]

    Python removes, from both ends, every leading and trailing byte that
    occurs in [chars], read as a SET of byte values; with [None] the set is
    ASCII whitespace. *)

Definition ascii_whitespace : bytes := [x20; x09; x0a; x0d; x0b; x0c].

Fixpoint bytes_lstrip (set : bytes) (b : bytes) : bytes :=
  match b with
  | [] => []
  | x :: r => if mem_byte x set then bytes_lstrip set r else b
  end.

Definition bytes_rstrip (set : bytes) (b : bytes) : bytes :=
  rev (bytes_lstrip set (rev b)).

Definition bytes_strip (chars : option bytes) (b : bytes) : bytes :=
  let set := match chars with Some c => c | None => ascii_whitespace end in
  bytes_rstrip set (bytes_lstrip set b).

(** *** [str.replace(old, '')] for a one-character [old]: every occurrence
    of the character is dropped. *)

Definition str_remove (old : codepoint) (s : str) : str :=
  filter (fun c => negb (N.eqb c old)) s.

(** *** [str(n)] and ['{}'.format(n)] of an [int]: its decimal numeral. *)

Definition str_of_int (n : Z) : str :=
  ustr (NilZero.string_of_int (Z.to_int n)).

(** ['...{}...'.format(args)], for templates whose only replacement fields
    are empty braces; [None] is the [IndexError] of a missing argument. *)
Fixpoint str_format (template : str) (args : list str) : option str :=
  match template with
  | [] => Some []
  | c :: t1 =>
      match t1 with
      | c2 :: t2 =>
          if (c =? 123)%N && (c2 =? 125)%N then
            match args with
            | a :: args' => option_map (app a) (str_format t2 args')
            | [] => None
            end
          else option_map (cons c) (str_format t1 args)
      | [] => Some [c]
      end
  end.

(** ** Exceptions and values

    The exception classes the script can meet, each with its message. *)

Inductive exn_class :=
| ePDUException
| TypeError | ValueError | AttributeError | KeyError | IndexError
| UnicodeDecodeError | UnicodeEncodeError
| re_error
| socket_timeout
| BadHostKeyException | AuthenticationException | SSHException
| OtherException.

Inductive exn :=
| Exn (cls : exn_class) (msg : str)
| SystemExit (code : Z).

Definition exn_class_eqb (a b : exn_class) : bool :=
  match a, b with
  | ePDUException, ePDUException | TypeError, TypeError
  | ValueError, ValueError | AttributeError, AttributeError
  | KeyError, KeyError | IndexError, IndexError
  | UnicodeDecodeError, UnicodeDecodeError
  | UnicodeEncodeError, UnicodeEncodeError
  | re_error, re_error | socket_timeout, socket_timeout
  | BadHostKeyException, BadHostKeyException
  | AuthenticationException, AuthenticationException
  | SSHException, SSHException | OtherException, OtherException => true
  | _, _ => false
  end.

(** [str(exc)] of a caught exception: its message. *)
Definition exn_str (e : exn) : str :=
  match e with
  | Exn _ msg => msg
  | SystemExit code => str_of_int code
  end.

(** The Python values a validator can be handed. *)
Inductive value :=
| VNone
| VStr (s : str)
| VBytes (b : bytes)
| VInt (n : Z).

Fixpoint bytes_eqb (a b : bytes) : bool :=
  match a, b with
  | [], [] => true
  | x :: a', y :: b' => Byte.eqb x y && bytes_eqb a' b'
  | _, _ => false
  end.

(** [a == b]; values of different types are never equal. *)
Definition value_eqb (a b : value) : bool :=
  match a, b with
  | VNone, VNone => true
  | VStr x, VStr y => str_eqb x y
  | VBytes x, VBytes y => bytes_eqb x y
  | VInt x, VInt y => Z.eqb x y
  | _, _ => false
  end.

(** [x in lst] for a list. *)
Definition py_in (x : value) (lst : list value) : bool :=
  existsb (value_eqb x) lst.

(** Computations that return or raise, without touching the state. *)
Definition result (A : Type) := (exn + A)%type.

Definition try_except {A} (body : result A) (cls : exn_class)
           (handler : result A) : result A :=
  match body with
  | inl (Exn c _) => if exn_class_eqb c cls then handler else body
  | _ => body
  end.

(** ** The fragment of [re] the script uses

    Patterns are sequences of pieces [atom{n}], an atom being a literal
    character, [.] or a bracketed set of characters and ranges.  The
    pattern is read from the very string the source passes to [re.match]. *)

Inductive atom :=
| AnyChar
| Lit (c : codepoint)
| CharSet (ranges : list (codepoint * codepoint)).

Definition piece := (atom * nat)%type.

Inductive pmode :=
| PTop
| PSet (items : list (codepoint * codepoint))
| PSetC (items : list (codepoint * codepoint)) (c : codepoint)
| PSetR (items : list (codepoint * codepoint)) (lo : codepoint)
| PCount0
| PCount (n : nat).

Definition is_ascii_digit (c : codepoint) : bool :=
  ((48 <=? c) && (c <=? 57))%N.

(** Characters with a meaning this fragment does not cover. *)
Definition re_unsupported (c : codepoint) : bool :=
  existsb (N.eqb c) (ustr "\()*+?|^$").

Definition set_count (n : nat) (acc : list piece) : option (list piece) :=
  match acc with
  | (a, _) :: acc' => Some ((a, n) :: acc')
  | [] => None
  end.

(** [acc] holds the pieces read so far, last one first. *)
Fixpoint re_parse (p : str) (m : pmode) (acc : list piece)
  : option (list piece) :=
  match p with
  | [] => match m with PTop => Some (rev acc) | _ => None end
  | c :: p' =>
      match m with
      | PTop =>
          if (c =? 91)%N then re_parse p' (PSet []) acc
          else if (c =? 123)%N then
            match acc with [] => None | _ => re_parse p' PCount0 acc end
          else if (c =? 46)%N then re_parse p' PTop ((AnyChar, 1) :: acc)
          else if re_unsupported c then None
          else re_parse p' PTop ((Lit c, 1) :: acc)
      | PSet items =>
          if (c =? 93)%N then
            match items with
            | [] => None
            | _ => re_parse p' PTop ((CharSet (rev items), 1) :: acc)
            end
          else if (c =? 92)%N || (c =? 94)%N || (c =? 91)%N then None
          else re_parse p' (PSetC items c) acc
      | PSetC items x =>
          if (c =? 45)%N then re_parse p' (PSetR items x) acc
          else if (c =? 93)%N then
            re_parse p' PTop ((CharSet (rev ((x, x) :: items)), 1) :: acc)
          else if (c =? 92)%N || (c =? 91)%N then None
          else re_parse p' (PSetC ((x, x) :: items) c) acc
      | PSetR items lo =>
          if (c =? 93)%N then
            re_parse p' PTop
              ((CharSet (rev ((45, 45) :: (lo, lo) :: items)%N), 1) :: acc)
          else if (c =? 92)%N || (c =? 91)%N then None
          else if (lo <=? c)%N then re_parse p' (PSet ((lo, c) :: items)) acc
          else None
      | PCount0 =>
          if is_ascii_digit c
          then re_parse p' (PCount (N.to_nat (c - 48))) acc
          else None
      | PCount n =>
          if is_ascii_digit c
          then re_parse p' (PCount (10 * n + N.to_nat (c - 48))) acc
          else if (c =? 125)%N then
            match set_count n acc with
            | Some acc' => re_parse p' PTop acc'
            | None => None
            end
          else None
      end
  end.

Definition re_compile (pattern : str) : option (list piece) :=
  re_parse pattern PTop [].

Definition in_ranges (rs : list (codepoint * codepoint)) (c : codepoint)
  : bool :=
  existsb (fun r => (fst r <=? c)%N && (c <=? snd r)%N) rs.

(** [.] matches every character but the newline. *)
Definition atom_matches (a : atom) (c : codepoint) : bool :=
  match a with
  | AnyChar => negb (c =? LF)%N
  | Lit x => (c =? x)%N
  | CharSet rs => in_ranges rs c
  end.

(** Matching consumes a prefix of the subject and yields what follows it. *)
Fixpoint match_repeat (a : atom) (n : nat) (s : str) : option str :=
  match n with
  | O => Some s
  | S n' =>
      match s with
      | c :: r => if atom_matches a c then match_repeat a n' r else None
      | [] => None
      end
  end.

Fixpoint match_pieces (ps : list piece) (s : str) : option str :=
  match ps with
  | [] => Some s
  | (a, n) :: ps' =>
      match match_repeat a n s with
      | Some r => match_pieces ps' r
      | None => None
      end
  end.

(** [re.match(pattern, string)]: anchored at the start only.  A subject
    that is not a [str] raises [TypeError]; the result is the match (here:
    the text left after it) or [None]. *)
Definition re_match (pattern : str) (subject : value) : result (option str) :=
  match re_compile pattern with
  | None => inl (Exn re_error (ustr "unsupported pattern"))
  | Some ps =>
      match subject with
      | VStr s => inr (match_pieces ps s)
      | VBytes _ =>
          inl (Exn TypeError
                 (ustr "cannot use a string pattern on a bytes-like object"))
      | _ => inl (Exn TypeError (ustr "expected string or bytes-like object"))
      end
  end.

(** [bool(m)] of the result of [re.match]: a match object is true. *)
Definition match_bool (m : option str) : bool :=
  match m with Some _ => true | None => false end.

(** ** [int(s)] of a [str]

    CPython first maps the text to ASCII (code points below 127 stay,
    other white space becomes a blank, other decimal digits become their
    ASCII digit, anything else a [?]) and then reads: white space, an
    optional sign, digits with single underscores between them, white
    space.  The table of non-ASCII decimal digits belongs to the Unicode
    database of the interpreter and is a parameter here. *)

Class UnicodeDB := {
  unicode_todecimal : codepoint -> option N;
  unicode_todecimal_lt : forall c d, unicode_todecimal c = Some d -> (d < 10)%N
}.

Definition is_space_ascii (c : codepoint) : bool :=
  (((9 <=? c) && (c <=? 13)) || (c =? 32))%N.

Definition is_space_unicode (c : codepoint) : bool :=
  ((c =? 0x85) || (c =? 0xA0) || (c =? 0x1680)
   || ((0x2000 <=? c) && (c <=? 0x200A))
   || (c =? 0x2028) || (c =? 0x2029) || (c =? 0x202F)
   || (c =? 0x205F) || (c =? 0x3000))%N.

Definition to_ascii_decimal `{UnicodeDB} (c : codepoint) : codepoint :=
  (if c <? 127 then c
   else if is_space_unicode c then 32
   else match unicode_todecimal c with
        | Some d => 48 + d
        | None => 63
        end)%N.

Fixpoint skip_spaces (l : str) : str :=
  match l with
  | c :: r => if is_space_ascii c then skip_spaces r else l
  | [] => []
  end.

(** Reads digits and underscores; yields the value, the number of digits
    and the rest, or [None] on a doubled or trailing underscore. *)
Fixpoint scan_digits (l : str) (prev_us : bool) (acc count : N)
  : option (N * N * str) :=
  match l with
  | c :: r =>
      if is_ascii_digit c
      then scan_digits r false (10 * acc + (c - 48))%N (count + 1)%N
      else if (c =? 95)%N
           then if prev_us then None else scan_digits r true acc count
           else if prev_us then None else Some (acc, count, l)
  | [] => if prev_us then None else Some (acc, count, [])
  end.

(** [sys.int_max_str_digits] *)
Definition int_max_str_digits : N := 4300.

Definition invalid_literal : exn :=
  Exn ValueError (ustr "invalid literal for int() with base 10").

Definition py_int `{UnicodeDB} (s : str) : result Z :=
  let l := skip_spaces (map to_ascii_decimal s) in
  let '(negative, l) :=
    match l with
    | c :: r => if (c =? 43)%N then (false, r)
                else if (c =? 45)%N then (true, r)
                else (false, l)
    | [] => (false, l)
    end in
  match l with
  | [] => inl invalid_literal
  | c :: _ =>
      if (c =? 95)%N then inl invalid_literal
      else
        match scan_digits l false 0 0 with
        | None => inl invalid_literal
        | Some (v, count, rest) =>
            if (int_max_str_digits <? count)%N then
              inl (Exn ValueError
                     (ustr "Exceeds the limit for integer string conversion"))
            else if (count =? 0)%N then inl invalid_literal
            else match skip_spaces rest with
                 | [] => inr (if negative then - Z.of_N v else Z.of_N v)%Z
                 | _ => inl invalid_literal
                 end
        end
  end.

(** ** The validators of [ePDU] *)

Definition supported : list value :=
  [ VStr (ustr "EILB13");
    VStr (ustr "EILB14");
    VStr (ustr "EILB15");
    VStr (ustr "EMIH28");
    VStr (ustr "EMAB04") ].

Definition _is_part_number_ok (pn : value) : bool :=
  if py_in pn supported then true else false.

Definition _is_serial_ok (serial : value) : result bool :=
  try_except
    (match re_match (ustr "[A-Z0-9]{10}") serial with
     | inr m => inr (match_bool m)
     | inl e => inl e
     end)
    TypeError
    (inr false).

Definition _is_version_ok (version : value) : result bool :=
  try_except
    (match re_match (ustr "[0-9]{2}.[0-9]{2}.[0-9]{4}") version with
     | inr m => inr (match_bool m)
     | inl e => inl e
     end)
    TypeError
    (inr false).

(** ** The outside world

    One SSH connection to one device.  What the program does to it is
    recorded in [trace], in order; what the device sends back is scripted:
    [inbuf] holds the bytes that have arrived and were not read yet,
    [incoming] the chunks still to come, one arriving during each [sleep]
    (an empty chunk is a sleep during which nothing arrives).
    [connect_result] says how [SSHClient.connect] will end. *)

Inductive event :=
| EvConnect (host user password : str)
| EvInvokeShell
| EvRecvReady (ready : bool)
| EvSleep (milliseconds : N)
| EvSend (data : bytes)
| EvRecv (nbytes : nat) (data : bytes)
| EvChannelClose
| EvClientClose.

Record World := mkWorld {
  connect_result : option exn;
  inbuf : bytes;
  incoming : list bytes;
  trace : list event;
  stdout : list str
}.

Inductive ssh_client := TheClient.
Inductive ssh_channel := TheChannel.

(** A [dict] with [str] keys and values, in insertion order. *)
Definition dict := list (str * str).

Fixpoint dict_lookup (d : dict) (k : str) : option str :=
  match d with
  | [] => None
  | (k', v) :: d' => if str_eqb k' k then Some v else dict_lookup d' k
  end.

Fixpoint dict_set (d : dict) (k v : str) : dict :=
  match d with
  | [] => [(k, v)]
  | (k', v') :: d' =>
      if str_eqb k' k then (k', v) :: d' else (k', v') :: dict_set d' k v
  end.

(** ** The [ePDU] object and the program state *)

Record ePDU := mk_ePDU {
  _host : str;
  _user : str;
  _pass : str;
  _channel : option ssh_channel;
  _client : option ssh_client;
  _logged_in : bool;
  _prompt : option bytes;
  _info : option dict
}.

(** [ePDU.__init__] *)
Definition ePDU_init (host user password : str) : ePDU :=
  {| _host := host; _user := user; _pass := password;
     _channel := None; _client := None; _logged_in := false;
     _prompt := None; _info := None |}.

Record State := mkState {
  self : ePDU;
  world : World
}.

Definition with_self (f : ePDU -> ePDU) (s : State) : State :=
  {| self := f (self s); world := world s |}.

Definition with_world (f : World -> World) (s : State) : State :=
  {| self := self s; world := f (world s) |}.

Definition set_channel (c : option ssh_channel) (o : ePDU) : ePDU :=
  {| _host := _host o; _user := _user o; _pass := _pass o;
     _channel := c; _client := _client o; _logged_in := _logged_in o;
     _prompt := _prompt o; _info := _info o |}.

Definition set_client (c : option ssh_client) (o : ePDU) : ePDU :=
  {| _host := _host o; _user := _user o; _pass := _pass o;
     _channel := _channel o; _client := c; _logged_in := _logged_in o;
     _prompt := _prompt o; _info := _info o |}.

Definition set_logged_in (b : bool) (o : ePDU) : ePDU :=
  {| _host := _host o; _user := _user o; _pass := _pass o;
     _channel := _channel o; _client := _client o; _logged_in := b;
     _prompt := _prompt o; _info := _info o |}.

Definition set_prompt (p : option bytes) (o : ePDU) : ePDU :=
  {| _host := _host o; _user := _user o; _pass := _pass o;
     _channel := _channel o; _client := _client o;
     _logged_in := _logged_in o; _prompt := p; _info := _info o |}.

Definition set_info (i : option dict) (o : ePDU) : ePDU :=
  {| _host := _host o; _user := _user o; _pass := _pass o;
     _channel := _channel o; _client := _client o;
     _logged_in := _logged_in o; _prompt := _prompt o; _info := i |}.

Definition log_event (e : event) (w : World) : World :=
  {| connect_result := connect_result w; inbuf := inbuf w;
     incoming := incoming w; trace := trace w ++ [e]; stdout := stdout w |}.

Definition write_stdout (line : str) (w : World) : World :=
  {| connect_result := connect_result w; inbuf := inbuf w;
     incoming := incoming w; trace := trace w;
     stdout := stdout w ++ [line] |}.

Definition set_input (buf : bytes) (rest : list bytes) (w : World) : World :=
  {| connect_result := connect_result w; inbuf := buf; incoming := rest;
     trace := trace w; stdout := stdout w |}.

(** ** The monad of the program: state, exceptions, and loops that may
    never end ([Hang] keeps the state in which the program is stuck). *)

Inductive outcome (A : Type) :=
| Ret (a : A) (s : State)
| Raise (e : exn) (s : State)
| Hang (s : State).

Arguments Ret {A} a s.
Arguments Raise {A} e s.
Arguments Hang {A} s.

Definition M (A : Type) := State -> outcome A.

Definition ret {A} (a : A) : M A := fun s => Ret a s.

Definition bind {A B} (m : M A) (k : A -> M B) : M B :=
  fun s =>
    match m s with
    | Ret a s' => k a s'
    | Raise e s' => Raise e s'
    | Hang s' => Hang s'
    end.

Definition raise {A} (e : exn) : M A := fun s => Raise e s.

Declare Scope monad_scope.
Delimit Scope monad_scope with monad.
Notation "x <- m ;; k" := (bind m (fun x => k))
  (at level 61, m at next level, right associativity) : monad_scope.
Notation "m ;; k" := (bind m (fun _ => k))
  (at level 61, right associativity) : monad_scope.
Open Scope monad_scope.

Definition lift {A} (r : result A) : M A :=
  match r with inr a => ret a | inl e => raise e end.

Definition lift_opt {A} (o : option A) (e : exn) : M A :=
  match o with Some a => ret a | None => raise e end.

Definition get_self : M ePDU := fun s => Ret (self s) s.

Definition update_self (f : ePDU -> ePDU) : M unit :=
  fun s => Ret tt (with_self f s).

(** [try: body except ...:] — [handlers] picks the clause for an
    exception, if there is one. *)
Definition try_ {A} (body : M A) (handlers : exn -> option (M A)) : M A :=
  fun s =>
    match body s with
    | Raise e s' =>
        match handlers e with
        | Some h => h s'
        | None => Raise e s'
        end
    | r => r
    end.

(** The state an outcome ends in. *)
Definition final_state {A} (r : outcome A) : State :=
  match r with Ret _ s | Raise _ s | Hang s => s end.

(** *** Built-ins with an effect *)

Definition print (line : str) : M unit :=
  fun s => Ret tt (with_world (write_stdout line) s).

Definition sys_exit {A} (code : Z) : M A := raise (SystemExit code).

(** [sleep(t)]: the next chunk of the device's output arrives. *)
Definition sleep (milliseconds : N) : M unit :=
  fun s =>
    let w := log_event (EvSleep milliseconds) (world s) in
    let w' := match incoming w with
              | [] => w
              | c :: rest => set_input (inbuf w ++ c) rest w
              end in
    Ret tt {| self := self s; world := w' |}.

(** *** paramiko *)

Definition ssh_connect (host user password : str) : M ssh_client :=
  fun s =>
    let s' := with_world (log_event (EvConnect host user password)) s in
    match connect_result (world s) with
    | None => Ret TheClient s'
    | Some e => Raise e s'
    end.

Definition invoke_shell (client : ssh_client) : M ssh_channel :=
  fun s => Ret TheChannel (with_world (log_event EvInvokeShell) s).

Definition recv_ready (channel : ssh_channel) : M bool :=
  fun s =>
    let r := match inbuf (world s) with [] => false | _ => true end in
    Ret r (with_world (log_event (EvRecvReady r)) s).

(** [channel.send(data)]: the whole of [data] goes out. *)
Definition channel_send (channel : ssh_channel) (data : bytes) : M unit :=
  fun s => Ret tt (with_world (log_event (EvSend data)) s).

(** [channel.recv(n)]: at most [n] of the bytes that have arrived. *)
Definition channel_recv (channel : ssh_channel) (n : nat) : M bytes :=
  fun s =>
    let w := world s in
    let data := firstn n (inbuf w) in
    Ret data
        {| self := self s;
           world := log_event (EvRecv n data)
                      (set_input (skipn n (inbuf w)) (incoming w) w) |}.

Definition channel_close (channel : ssh_channel) : M unit :=
  fun s => Ret tt (with_world (log_event EvChannelClose) s).

Definition client_close (client : ssh_client) : M unit :=
  fun s => Ret tt (with_world (log_event EvClientClose) s).

(** [while channel.recv_ready() is False: sleep(t)].  The recursion is on
    the chunks still to come: once they are used up and nothing has
    arrived, the loop polls for ever. *)
Fixpoint poll_loop (channel : ssh_channel) (milliseconds : N)
         (chunks : list bytes) : M unit :=
  ready <- recv_ready channel ;;
  if ready then ret tt
  else match chunks with
       | [] => fun s => Hang s
       | _ :: chunks' =>
           sleep milliseconds ;; poll_loop channel milliseconds chunks'
       end.

Definition wait_until_ready (channel : ssh_channel) (milliseconds : N)
  : M unit :=
  fun s => poll_loop channel milliseconds (incoming (world s)) s.

(** ** The methods of [ePDU] *)

Definition no_attribute (name : string) : exn :=
  Exn AttributeError
      (ustr "'NoneType' object has no attribute '" ++ ustr name ++ ustr "'").

(** The reply computed from what was read: strip the prompt, strip the
    command sent, decode, drop carriage returns and line feeds. *)
Definition reply_of (prompt : option bytes) (send data : bytes)
  : option str :=
  let response := bytes_strip (Some send) (bytes_strip prompt data) in
  match utf8_decode response with
  | Some text => Some (str_remove LF (str_remove CR text))
  | None => None
  end.

Definition _send_command (cmd : str) : M str :=
  send <- lift_opt (utf8_encode (cmd ++ [CR]))
                   (Exn UnicodeEncodeError (ustr "surrogates not allowed")) ;;
  me <- get_self ;;
  channel <- lift_opt (_channel me) (no_attribute "send") ;;
  channel_send channel send ;;
  wait_until_ready channel 500 ;;
  data <- channel_recv channel 1024 ;;
  me <- get_self ;;
  lift_opt (reply_of (_prompt me) send data)
           (Exn UnicodeDecodeError (ustr "invalid utf-8")).

Definition get_object (option : str) : M str :=
  let option := ustr "get " ++ option in
  _send_command option.

Definition set_object (option val : str) : M str :=
  let cmd := ustr "set " ++ option ++ ustr " " ++ val in
  _send_command cmd.

(** Subscripts: [lst[i]] of a list takes an integer; [d[k]] of a dict a
    key. *)
Inductive subscript :=
| SubInt (i : Z)
| SubStr (k : str).

Definition list_getitem (lst : list str) (i : subscript) : result str :=
  match i with
  | SubStr _ =>
      inl (Exn TypeError
             (ustr "list indices must be integers or slices, not str"))
  | SubInt i =>
      let n := Z.of_nat (List.length lst) in
      let j := (if i <? 0 then i + n else i)%Z in
      if ((0 <=? j) && (j <? n))%Z
      then match nth_error lst (Z.to_nat j) with
           | Some x => inr x
           | None => inl (Exn IndexError (ustr "list index out of range"))
           end
      else inl (Exn IndexError (ustr "list index out of range"))
  end.

Definition dict_getitem (d : dict) (k : str) : result str :=
  match dict_lookup d k with
  | Some v => inr v
  | None => inl (Exn KeyError k)
  end.

Definition objects : list str :=
  [ ustr "PDU.PowerSummary.iSerialNumber";
    ustr "PDU.PowerSummary.iPartNumber";
    ustr "PDU.PowerSummary.iVersion";
    ustr "PDU.OutletSystem.Outlet.Count" ].

(** [for option in objects: params[option] = self.get_object(option)] *)
Fixpoint query_objects (options : list str) (params : dict) : M dict :=
  match options with
  | [] => ret params
  | option :: rest =>
      v <- get_object option ;;
      query_objects rest (dict_set params option v)
  end.

(** The validations of [_get_info].  The message of each [raise] is built
    from [objects[<name>]], and [objects] is the list above. *)
Definition validate (params : dict) : M unit :=
  version <- lift (dict_getitem params (ustr "PDU.PowerSummary.iVersion")) ;;
  version_ok <- lift (_is_version_ok (VStr version)) ;;
  (if negb version_ok then
     x <- lift (list_getitem objects
                  (SubStr (ustr "PDU.PowerSummary.iVersion"))) ;;
     raise (Exn ePDUException (ustr "Validation Error: FW version " ++ x))
   else ret tt) ;;
  serial <- lift (dict_getitem params
                    (ustr "PDU.PowerSummary.iSerialNumber")) ;;
  serial_ok <- lift (_is_serial_ok (VStr serial)) ;;
  (if negb serial_ok then
     x <- lift (list_getitem objects
                  (SubStr (ustr "PDU.PowerSummary.iSerialNumber"))) ;;
     raise (Exn ePDUException (ustr "Validation Error: Serial Number " ++ x))
   else ret tt) ;;
  part <- lift (dict_getitem params (ustr "PDU.PowerSummary.iPartNumber")) ;;
  (if negb (_is_part_number_ok (VStr part)) then
     x <- lift (list_getitem objects
                  (SubStr (ustr "PDU.PowerSummary.iPartNumber"))) ;;
     raise (Exn ePDUException (ustr "Validation Error: Part Number " ++ x))
   else ret tt).

Definition _get_info : M dict :=
  params <- query_objects objects [] ;;
  validate params ;;
  ret params.

Definition login : M bool :=
  me <- get_self ;;
  connected <-
    try_ (client <- ssh_connect (_host me) (_user me) (_pass me) ;;
          ret (Some client))
         (fun exc =>
            match exc with
            | Exn socket_timeout _ =>
                Some (print (_host me ++ ustr " time out") ;; ret None)
            | Exn BadHostKeyException _ =>
                Some (print (ustr "Server host key could not be verified: "
                             ++ exn_str exc) ;; ret None)
            | Exn AuthenticationException _ =>
                Some (print (ustr "Authentication failed: " ++ _host me) ;;
                      ret None)
            | Exn SSHException _ =>
                Some (print (ustr "Unable to establish SSH connection: "
                             ++ exn_str exc) ;; ret None)
            | _ => None
            end) ;;
  match connected with
  | None => ret false
  | Some client =>
      channel <- invoke_shell client ;;
      wait_until_ready channel 1000 ;;
      update_self (set_client (Some client)) ;;
      update_self (set_channel (Some channel)) ;;
      prompt <- channel_recv channel 4096 ;;
      update_self (set_prompt (Some prompt)) ;;
      info <- _get_info ;;
      update_self (set_info (Some info)) ;;
      update_self (set_logged_in true) ;;
      ret true
  end.

Definition logout : M unit :=
  me <- get_self ;;
  if _logged_in me then
    update_self (set_logged_in false) ;;
    _send_command (ustr "quit") ;;
    me <- get_self ;;
    channel <- lift_opt (_channel me) (no_attribute "close") ;;
    channel_close channel ;;
    client <- lift_opt (_client me) (no_attribute "close") ;;
    client_close client
  else
    print (ustr "Not logged in.").

Definition not_subscriptable : exn :=
  Exn TypeError (ustr "'NoneType' object is not subscriptable").

Definition number_of_outlets `{UnicodeDB} : M Z :=
  me <- get_self ;;
  info <- lift_opt (_info me) not_subscriptable ;;
  cnt <- lift (dict_getitem info (ustr "PDU.OutletSystem.Outlet.Count")) ;;
  lift (py_int cnt).

Fixpoint print_items (items : dict) : M unit :=
  match items with
  | [] => ret tt
  | (key, v) :: rest =>
      line <- lift_opt (str_format (ustr "{}: {}") [key; v])
                       (Exn IndexError (ustr "format")) ;;
      print line ;;
      print_items rest
  end.

Definition show_information : M unit :=
  me <- get_self ;;
  info <- lift_opt (_info me)
            (Exn TypeError (ustr "'NoneType' object is not iterable")) ;;
  print_items info.

Definition outlet_option (template : string) (outlet : Z) : M str :=
  lift_opt (str_format (ustr template) [str_of_int outlet])
           (Exn IndexError (ustr "format")).

Definition turn_on_outlet (outlet : Z) : M unit :=
  option <- outlet_option "PDU.OutletSystem.Outlet[{}].DelayBeforeStartup"
                          outlet ;;
  set_object option (ustr "0") ;;
  ret tt.

Definition turn_off_outlet (outlet : Z) : M unit :=
  option <- outlet_option "PDU.OutletSystem.Outlet[{}].DelayBeforeShutdown"
                          outlet ;;
  set_object option (ustr "0") ;;
  ret tt.

(** ** [main] *)

(** The parsed command line: [--on] and [--off] collect integers and are
    [None] when the flag was never given. *)
Record Args := mkArgs {
  address : str;
  password : str;
  username : str;
  on : option (list Z);
  off : option (list Z);
  info : bool
}.

(** Truth value of an optional list: [None] and [[]] are false. *)
Definition truthy (l : option (list Z)) : bool :=
  match l with
  | Some (_ :: _) => true
  | _ => false
  end.

Definition elements (l : option (list Z)) : list Z :=
  match l with Some xs => xs | None => [] end.

(** [print('No such outlet: {}', num)]: both arguments, with a blank
    between them. *)
Definition no_such_outlet (num : Z) : str :=
  ustr "No such outlet: {}" ++ ustr " " ++ str_of_int num.

(** [num < 1 or num > pdu.number_of_outlets()] *)
Definition out_of_range `{UnicodeDB} (num : Z) : M bool :=
  if (num <? 1)%Z then ret true
  else (cnt <- number_of_outlets ;; ret (cnt <? num)%Z).

(** The body of the loops over [args.on] and [args.off]:
    [if <out of range>: print(...); continue] and then the action. *)
Definition outlet_step `{UnicodeDB} (action : Z -> M unit) (num : Z)
  : M unit :=
  skip <- out_of_range num ;;
  if skip then print (no_such_outlet num) else action num.

(** [for num in nums: <body>] *)
Fixpoint for_outlets `{UnicodeDB} (action : Z -> M unit) (nums : list Z)
  : M unit :=
  match nums with
  | [] => ret tt
  | num :: rest => outlet_step action num ;; for_outlets action rest
  end.

Definition main `{UnicodeDB} (args : Args) : M unit :=
  if negb (truthy (on args)) && negb (truthy (off args)) && negb (info args)
  then sys_exit 0
  else
    (* pdu = ePDU(args.address, args.username, args.password) *)
    update_self (fun _ => ePDU_init (address args) (username args)
                                    (password args)) ;;
    ok <- login ;;
    (if negb ok then sys_exit 1 else ret tt) ;;
    (if info args then show_information else ret tt) ;;
    (if truthy (on args)
     then for_outlets turn_on_outlet (elements (on args)) else ret tt) ;;
    (if truthy (off args)
     then for_outlets turn_off_outlet (elements (off args)) else ret tt) ;;
    logout ;;
    sys_exit 0.

(** ** Observations on the world *)

(** What was handed to [channel.send], in order. *)
Definition sent (w : World) : list bytes :=
  flat_map (fun e => match e with EvSend d => [d] | _ => [] end) (trace w).

Definition is_close (e : event) : bool :=
  match e with
  | EvChannelClose | EvClientClose => true
  | _ => false
  end.

(** Whether the channel or the client was ever closed. *)
Definition closed (w : World) : bool := existsb is_close (trace w).

Definition raised {A} (r : outcome A) : option exn :=
  match r with Raise e _ => Some e | _ => None end.

(** ** A scripted device for concrete runs

    It shows the prompt [pdu#0>] and answers a command with the echo of the
    command line, the payload on a line of its own, and the prompt. *)

Definition crlf : bytes := [x0d; x0a].

Definition device_prompt : bytes := blit "pdu#0>".

Definition device_answer (command payload : string) : bytes :=
  blit command ++ crlf ++ blit payload ++ crlf ++ device_prompt.

Definition scripted (chunks : list bytes) : World :=
  {| connect_result := None; inbuf := []; incoming := chunks;
     trace := []; stdout := [] |}.

Definition identity_answers (serial part version count : string)
  : list bytes :=
  [ device_answer "get PDU.PowerSummary.iSerialNumber" serial;
    device_answer "get PDU.PowerSummary.iPartNumber" part;
    device_answer "get PDU.PowerSummary.iVersion" version;
    device_answer "get PDU.OutletSystem.Outlet.Count" count ].

(** A new object in front of a device that is about to show its prompt. *)
Definition before_login (answers : list bytes) : State :=
  {| self := ePDU_init (ustr "10.0.0.7") (ustr "admin") (ustr "admin");
     world := scripted (device_prompt :: answers) |}.

(** An object whose shell is open: client, channel and prompt are set. *)
Definition shell_open (answers : list bytes) : State :=
  {| self := set_prompt (Some device_prompt)
               (set_channel (Some TheChannel)
                  (set_client (Some TheClient)
                     (ePDU_init (ustr "10.0.0.7") (ustr "admin")
                                (ustr "admin"))));
     world := scripted answers |}.

Definition identity_info (serial part version count : string) : dict :=
  [ (ustr "PDU.PowerSummary.iSerialNumber", ustr serial);
    (ustr "PDU.PowerSummary.iPartNumber", ustr part);
    (ustr "PDU.PowerSummary.iVersion", ustr version);
    (ustr "PDU.OutletSystem.Outlet.Count", ustr count) ].

(** An object after a successful [login] to a device with [count]
    outlets. *)
Definition logged_in (count : string) (answers : list bytes) : State :=
  with_self
    (fun o => set_logged_in true
                (set_info (Some (identity_info "AB12CD34EF" "EILB13"
                                               "01.02.2021" count)) o))
    (shell_open answers).

(** The Unicode database restricted to ASCII: no further decimal digits. *)
Definition ascii_only : UnicodeDB.
Proof.
  refine {| unicode_todecimal := fun _ => None |}.
  intros c d E. discriminate E.
Defined.

(** * Properties *)

Unset Implicit Arguments.

(** ** Facts about the Python values *)

Lemma str_eqb_eq (a b : str) : str_eqb a b = true <-> a = b.
Proof.
  revert b; induction a as [|x a IH]; intros [|y b]; simpl;
    try (split; [discriminate | congruence]); try tauto.
  rewrite andb_true_iff, N.eqb_eq, IH. split.
  - intros [-> ->]; reflexivity.
  - intros E; inversion E; auto.
Qed.

Lemma str_eqb_refl (a : str) : str_eqb a a = true.
Proof. apply str_eqb_eq; reflexivity. Qed.

Lemma match_repeat_spec (a : atom) (n : nat) (s r : str) :
  match_repeat a n s = Some r <->
  exists p, s = p ++ r /\ List.length p = n
            /\ Forall (fun c => atom_matches a c = true) p.
Proof.
  revert s; induction n as [|n IH]; intros s; simpl.
  - split.
    + intros E; injection E as ->. exists []; auto.
    + intros (p & -> & L & _). destruct p; [reflexivity | discriminate].
  - destruct s as [|c s'].
    + split; [discriminate|].
      intros (p & E & L & _). destruct p; discriminate.
    + destruct (atom_matches a c) eqn:Hc.
      * rewrite IH. split.
        -- intros (p & -> & L & F). exists (c :: p). simpl; auto.
        -- intros (p & E & L & F). destruct p as [|c' p]; [discriminate|].
           simpl in E, L. injection E as <- ->. injection L as L.
           inversion F; subst. exists p; auto.
      * split; [discriminate|].
        intros (p & E & L & F). destruct p as [|c' p]; [discriminate|].
        simpl in E. injection E as <- ->. inversion F; congruence.
Qed.

(** ** The serial-number validator *)

Definition upper_or_digit (c : codepoint) : Prop :=
  (65 <= c <= 90 \/ 48 <= c <= 57)%N.

Lemma serial_set_spec c :
  atom_matches (CharSet [(65, 90); (48, 57)]%N) c = true <-> upper_or_digit c.
Proof.
  unfold upper_or_digit; simpl.
  rewrite !orb_true_iff, !andb_true_iff, !N.leb_le. intuition discriminate.
Qed.

Lemma serial_ok_unfold s :
  _is_serial_ok (VStr s) =
  inr (match_bool (match_repeat (CharSet [(65, 90); (48, 57)]%N) 10 s)).
Proof.
  unfold _is_serial_ok, re_match.
  change (re_compile (ustr "[A-Z0-9]{10}"))
    with (Some [(CharSet [(65, 90); (48, 57)]%N, 10)]).
  cbv beta iota. unfold match_pieces.
  destruct (match_repeat _ 10 s); reflexivity.
Qed.

(** C4.  The serial-number validator accepts a string exactly when its
    first ten characters exist and are each an upper-case letter A-Z or a
    digit 0-9; it never raises on a string; it accepts [AB12CD34EF],
    rejects [ab12cd34ef] and [SHORT], and answers [False] for [None]
    instead of raising. *)
Theorem serial_validator_prefix :
  (forall s : str,
      _is_serial_ok (VStr s) = inr true <->
      exists p rest, s = p ++ rest /\ List.length p = 10
                     /\ Forall upper_or_digit p)
  /\ (forall s : str, _is_serial_ok (VStr s) = inr true
                      \/ _is_serial_ok (VStr s) = inr false)
  /\ _is_serial_ok (VStr (ustr "AB12CD34EF")) = inr true
  /\ _is_serial_ok (VStr (ustr "ab12cd34ef")) = inr false
  /\ _is_serial_ok (VStr (ustr "SHORT")) = inr false
  /\ _is_serial_ok VNone = inr false.
Proof.
  split; [|split; [|repeat split; reflexivity]].
  - intros s. rewrite serial_ok_unfold. split.
    + destruct (match_repeat _ 10 s) as [r|] eqn:E; [|discriminate].
      intros _. apply match_repeat_spec in E. destruct E as (p & -> & L & F).
      exists p, r. repeat split; auto.
      eapply Forall_impl; [|exact F]. intros c. apply serial_set_spec.
    + intros (p & r & -> & L & F).
      assert (E : match_repeat (CharSet [(65, 90); (48, 57)]%N) 10 (p ++ r)
                  = Some r).
      { apply match_repeat_spec. exists p. repeat split; auto.
        eapply Forall_impl; [|exact F]. intros c. apply serial_set_spec. }
      rewrite E. reflexivity.
  - intros s. rewrite serial_ok_unfold.
    destruct (match_repeat _ 10 s); auto.
Qed.

(** ** The part-number validator *)

(** C5.  The part-number validator accepts a string exactly when it is one
    of the five supported codes; the comparison is exact, so other
    spellings (lower case, a code with something appended), and values
    that are not strings, are rejected. *)
Theorem part_number_exact :
  (forall s : str,
      _is_part_number_ok (VStr s) = true <->
      s = ustr "EILB13" \/ s = ustr "EILB14" \/ s = ustr "EILB15"
      \/ s = ustr "EMIH28" \/ s = ustr "EMAB04")
  /\ _is_part_number_ok (VStr (ustr "eilb13")) = false
  /\ _is_part_number_ok (VStr (ustr "Emab04")) = false
  /\ _is_part_number_ok (VStr (ustr "EILB13 ")) = false
  /\ _is_part_number_ok (VStr []) = false
  /\ _is_part_number_ok VNone = false.
Proof.
  split; [|repeat split; reflexivity].
  intros s. unfold _is_part_number_ok, py_in, supported.
  cbn [existsb value_eqb].
  destruct (str_eqb s (ustr "EILB13")) eqn:E1;
    [apply str_eqb_eq in E1; tauto|].
  destruct (str_eqb s (ustr "EILB14")) eqn:E2;
    [apply str_eqb_eq in E2; tauto|].
  destruct (str_eqb s (ustr "EILB15")) eqn:E3;
    [apply str_eqb_eq in E3; tauto|].
  destruct (str_eqb s (ustr "EMIH28")) eqn:E4;
    [apply str_eqb_eq in E4; tauto|].
  destruct (str_eqb s (ustr "EMAB04")) eqn:E5;
    [apply str_eqb_eq in E5; tauto|].
  cbn [orb]. split; [discriminate|].
  intros [H|[H|[H|[H|H]]]]; subst s; rewrite str_eqb_refl in *; discriminate.
Qed.

(** ** The firmware-version validator *)

Definition digit_set : atom := CharSet [(48, 57)%N].

(** The pattern as compiled from the source: the two separators are [.],
    which stands for any character but the newline. *)
Definition version_pieces : list piece :=
  [(digit_set, 2); (AnyChar, 1); (digit_set, 2); (AnyChar, 1);
   (digit_set, 4)].

(** The format in the specification's words: two digits, a dot, two
    digits, a dot, four digits, at the start of the string. *)
Definition spec_version_prefix (s : str) : bool :=
  match_bool
    (match_pieces
       [(digit_set, 2); (Lit 46%N, 1); (digit_set, 2); (Lit 46%N, 1);
        (digit_set, 4)] s).

Lemma version_ok_unfold s :
  _is_version_ok (VStr s) = inr (match_bool (match_pieces version_pieces s)).
Proof.
  unfold _is_version_ok, re_match.
  change (re_compile (ustr "[0-9]{2}.[0-9]{2}.[0-9]{4}"))
    with (Some version_pieces).
  cbv beta iota.
  destruct (match_pieces version_pieces s); reflexivity.
Qed.

Lemma match_repeat_weaken (a b : atom) (n : nat) (s : str) (r : str) :
  (forall c, atom_matches a c = true -> atom_matches b c = true) ->
  match_repeat a n s = Some r -> match_repeat b n s = Some r.
Proof.
  intros W. revert s; induction n as [|n IH]; intros s; simpl; auto.
  destruct s as [|c s']; [discriminate|].
  destruct (atom_matches a c) eqn:E; [|discriminate].
  rewrite (W c E). apply IH.
Qed.

Lemma dot_weakens_literal c :
  atom_matches (Lit 46%N) c = true -> atom_matches AnyChar c = true.
Proof.
  simpl. intros E. apply N.eqb_eq in E. subst c. reflexivity.
Qed.

(** Whatever has the specified format is accepted by the code. *)
Lemma version_spec_accepted s :
  spec_version_prefix s = true -> _is_version_ok (VStr s) = inr true.
Proof.
  rewrite version_ok_unfold. unfold spec_version_prefix, version_pieces.
  cbn [match_pieces].
  destruct (match_repeat digit_set 2 s) as [s1|]; [|discriminate].
  destruct (match_repeat (Lit 46%N) 1 s1) as [s2|] eqn:E1; [|discriminate].
  rewrite (match_repeat_weaken _ AnyChar 1 s1 _ dot_weakens_literal E1).
  destruct (match_repeat digit_set 2 s2) as [s3|]; [|discriminate].
  destruct (match_repeat (Lit 46%N) 1 s3) as [s4|] eqn:E2; [|discriminate].
  rewrite (match_repeat_weaken _ AnyChar 1 s3 _ dot_weakens_literal E2).
  destruct (match_repeat digit_set 4 s4); [reflexivity | discriminate].
Qed.

(** What the code accepts: ten characters at the start, of which the
    third and the sixth are anything but a newline and the others
    digits. *)
Lemma version_ok_characterised s :
  _is_version_ok (VStr s) = inr true <->
  exists d1 d2 x d3 d4 y d5 d6 d7 d8 rest,
    s = [d1; d2; x; d3; d4; y; d5; d6; d7; d8] ++ rest
    /\ Forall (fun c => is_ascii_digit c = true)
              [d1; d2; d3; d4; d5; d6; d7; d8]
    /\ x <> LF /\ y <> LF.
Proof.
  rewrite version_ok_unfold. unfold version_pieces, digit_set.
  assert (D : forall c, in_ranges [(48, 57)%N] c = is_ascii_digit c).
  { intros c. unfold in_ranges, is_ascii_digit. simpl.
    rewrite orb_false_r. reflexivity. }
  split.
  - destruct s as [|d1 [|d2 [|x [|d3 [|d4 [|y [|d5 [|d6 [|d7 [|d8 rest]]]]]]]]]];
      cbn [match_pieces match_repeat atom_matches match_bool];
      rewrite ?D;
      repeat match goal with
        | |- context [if ?b then _ else _] => destruct b eqn:?
        end; try discriminate.
    intros _. exists d1, d2, x, d3, d4, y, d5, d6, d7, d8, rest.
    rewrite ?D in *.
    split; [reflexivity|]. split.
    + repeat constructor; assumption.
    + split; intros ->; rewrite N.eqb_refl in *; discriminate.
  - intros (d1 & d2 & x & d3 & d4 & y & d5 & d6 & d7 & d8 & rest
            & -> & F & Hx & Hy).
    repeat match goal with
      | H : Forall _ (_ :: _) |- _ => inversion H; clear H; subst
      end.
    apply N.eqb_neq in Hx, Hy.
    repeat (cbn [app match_pieces match_repeat match_bool atom_matches negb];
            first [ rewrite D
                  | match goal with
                    | H : is_ascii_digit _ = true |- _ => rewrite H; clear H
                    | H : (_ =? LF)%N = false |- _ => rewrite H; clear H
                    end ]).
    reflexivity.
Qed.

(** C3.  The firmware-version validator accepts [01x23y4567], which does
    not have the format two digits, dot, two digits, dot, four digits: the
    separators of the pattern match any character.  (It does accept
    [01.23.4567] and reject [abc], the empty string and [None].) *)
Theorem version_validator_accepts_any_separator :
  _is_version_ok (VStr (ustr "01x23y4567")) = inr true
  /\ spec_version_prefix (ustr "01x23y4567") = false
  /\ _is_version_ok (VStr (ustr "01.23.4567")) = inr true
  /\ _is_version_ok (VStr (ustr "abc")) = inr false
  /\ _is_version_ok (VStr []) = inr false
  /\ _is_version_ok VNone = inr false.
Proof. repeat split; reflexivity. Qed.

(** ** Frame reasoning: what a computation leaves unchanged *)

Section Frames.
Context {B : Type} (f : State -> B).

(** [m] keeps the observation [f]: whatever way [m] ends, [f] has the
    value it had at the start. *)
Definition keeps {A} (m : M A) : Prop :=
  forall s, f (final_state (m s)) = f s.

Lemma keeps_ret {A} (a : A) : keeps (ret a).
Proof. intros s; reflexivity. Qed.

Lemma keeps_raise {A} (e : exn) : keeps (@raise A e).
Proof. intros s; reflexivity. Qed.

Lemma keeps_hang {A} : keeps (fun s => @Hang A s).
Proof. intros s; reflexivity. Qed.

Lemma keeps_bind {A C} (m : M A) (k : A -> M C) :
  keeps m -> (forall a, keeps (k a)) -> keeps (bind m k).
Proof.
  intros Hm Hk s. unfold bind. specialize (Hm s).
  destruct (m s) as [a s1|e s1|s1]; simpl in Hm; simpl; auto.
  rewrite Hk. exact Hm.
Qed.

Lemma keeps_lift {A} (r : result A) : keeps (lift r).
Proof. destruct r; intros s; reflexivity. Qed.

Lemma keeps_lift_opt {A} (o : option A) e : keeps (lift_opt o e).
Proof. destruct o; intros s; reflexivity. Qed.

Lemma keeps_get_self : keeps get_self.
Proof. intros s; reflexivity. Qed.

Lemma keeps_sys_exit {A} code : keeps (@sys_exit A code).
Proof. intros s; reflexivity. Qed.

Lemma keeps_Ret {A} (m : M A) s a s' :
  keeps m -> m s = Ret a s' -> f s' = f s.
Proof. intros K E. specialize (K s). rewrite E in K. exact K. Qed.

Lemma keeps_Raise {A} (m : M A) s e s' :
  keeps m -> m s = Raise e s' -> f s' = f s.
Proof. intros K E. specialize (K s). rewrite E in K. exact K. Qed.
End Frames.

Lemma sent_log_event e w :
  sent (log_event e w)
  = sent w ++ match e with EvSend d => [d] | _ => [] end.
Proof.
  unfold sent, log_event; simpl. rewrite flat_map_app. simpl.
  rewrite app_nil_r. reflexivity.
Qed.

Lemma closed_log_event e w :
  closed (log_event e w) = closed w || is_close e.
Proof.
  unfold closed, log_event; simpl. rewrite existsb_app. simpl.
  rewrite orb_false_r. reflexivity.
Qed.

(** The three observations used below. *)
Definition obs_sent (s : State) : list bytes := sent (world s).
Definition obs_closed (s : State) : bool := closed (world s).

(** Steps that only touch the world keep the object; steps that log
    neither a send nor a close keep [sent] and [closed]. *)
Ltac world_step :=
  intros s; unfold obs_sent, obs_closed; simpl;
  rewrite ?sent_log_event, ?closed_log_event; simpl;
  rewrite ?app_nil_r, ?orb_false_r; reflexivity.

Lemma print_self line : keeps self (print line).
Proof. world_step. Qed.
Lemma print_sent line : keeps obs_sent (print line).
Proof. world_step. Qed.
Lemma print_closed line : keeps obs_closed (print line).
Proof. world_step. Qed.

Lemma sleep_self ms : keeps self (sleep ms).
Proof. world_step. Qed.
Lemma sleep_sent ms : keeps obs_sent (sleep ms).
Proof.
  intros s; unfold obs_sent, sleep; simpl.
  destruct (incoming (world s)); simpl;
    unfold sent; simpl; rewrite flat_map_app; simpl; apply app_nil_r.
Qed.
Lemma sleep_closed ms : keeps obs_closed (sleep ms).
Proof.
  intros s; unfold obs_closed, sleep; simpl.
  destruct (incoming (world s)); simpl;
    unfold closed; simpl; rewrite existsb_app; simpl; apply orb_false_r.
Qed.

Lemma recv_ready_self ch : keeps self (recv_ready ch).
Proof. world_step. Qed.
Lemma recv_ready_sent ch : keeps obs_sent (recv_ready ch).
Proof. world_step. Qed.
Lemma recv_ready_closed ch : keeps obs_closed (recv_ready ch).
Proof. world_step. Qed.

Lemma channel_recv_self ch n : keeps self (channel_recv ch n).
Proof. world_step. Qed.
Lemma channel_recv_sent ch n : keeps obs_sent (channel_recv ch n).
Proof.
  intros s; unfold obs_sent; simpl. unfold sent; simpl.
  rewrite flat_map_app; simpl; apply app_nil_r.
Qed.
Lemma channel_recv_closed ch n : keeps obs_closed (channel_recv ch n).
Proof.
  intros s; unfold obs_closed; simpl. unfold closed; simpl.
  rewrite existsb_app; simpl; apply orb_false_r.
Qed.

Lemma channel_send_self ch d : keeps self (channel_send ch d).
Proof. world_step. Qed.
Lemma channel_send_closed ch d : keeps obs_closed (channel_send ch d).
Proof. world_step. Qed.

Lemma invoke_shell_self c : keeps self (invoke_shell c).
Proof. world_step. Qed.
Lemma invoke_shell_closed c : keeps obs_closed (invoke_shell c).
Proof. world_step. Qed.

Lemma channel_close_self ch : keeps self (channel_close ch).
Proof. world_step. Qed.
Lemma client_close_self c : keeps self (client_close c).
Proof. world_step. Qed.

Lemma update_self_sent g : keeps obs_sent (update_self g).
Proof. intros s; reflexivity. Qed.
Lemma update_self_closed g : keeps obs_closed (update_self g).
Proof. intros s; reflexivity. Qed.

Create HintDb frames.
#[export] Hint Resolve
  print_self print_sent print_closed sleep_self sleep_sent sleep_closed
  recv_ready_self recv_ready_sent recv_ready_closed
  channel_recv_self channel_recv_sent channel_recv_closed
  channel_send_self channel_send_closed invoke_shell_self
  invoke_shell_closed channel_close_self client_close_self
  update_self_sent update_self_closed : frames.

Ltac frame :=
  repeat first
    [ progress intros
    | apply keeps_ret | apply keeps_raise | apply keeps_hang
    | apply keeps_lift | apply keeps_lift_opt | apply keeps_get_self
    | apply keeps_sys_exit
    | solve [auto with frames]
    | apply keeps_bind
    | match goal with
      | |- keeps _ (if ?b then _ else _) => destruct b
      | |- keeps _ (match ?x with _ => _ end) => destruct x
      end ].

Lemma poll_loop_keeps {B} (f : State -> B) ch ms chunks :
  keeps f (recv_ready ch) -> keeps f (sleep ms) ->
  keeps f (poll_loop ch ms chunks).
Proof.
  intros Hr Hs. induction chunks as [|c chunks IH]; simpl.
  - apply keeps_bind; auto. intros [|]; frame.
  - apply keeps_bind; auto. intros [|]; [frame|].
    apply keeps_bind; auto.
Qed.

Lemma wait_until_ready_keeps {B} (f : State -> B) ch ms :
  keeps f (recv_ready ch) -> keeps f (sleep ms) ->
  keeps f (wait_until_ready ch ms).
Proof.
  intros Hr Hs s. unfold wait_until_ready.
  exact (@poll_loop_keeps _ f ch ms (incoming (world s)) Hr Hs s).
Qed.

Lemma wait_self ch ms : keeps self (wait_until_ready ch ms).
Proof. apply wait_until_ready_keeps; auto with frames. Qed.
Lemma wait_sent ch ms : keeps obs_sent (wait_until_ready ch ms).
Proof. apply wait_until_ready_keeps; auto with frames. Qed.
Lemma wait_closed ch ms : keeps obs_closed (wait_until_ready ch ms).
Proof. apply wait_until_ready_keeps; auto with frames. Qed.
#[export] Hint Resolve wait_self wait_sent wait_closed : frames.

Lemma send_command_self cmd : keeps self (_send_command cmd).
Proof. unfold _send_command. frame. Qed.
Lemma send_command_closed cmd : keeps obs_closed (_send_command cmd).
Proof. unfold _send_command. frame. Qed.
#[export] Hint Resolve send_command_self send_command_closed : frames.

Lemma query_objects_self opts params : keeps self (query_objects opts params).
Proof.
  revert params; induction opts as [|o opts IH]; intros params; simpl.
  - frame.
  - unfold get_object. frame.
Qed.
Lemma query_objects_closed opts params :
  keeps obs_closed (query_objects opts params).
Proof.
  revert params; induction opts as [|o opts IH]; intros params; simpl.
  - frame.
  - unfold get_object. frame.
Qed.
#[export] Hint Resolve query_objects_self query_objects_closed : frames.

Lemma validate_keeps {B} (f : State -> B) params : keeps f (validate params).
Proof. unfold validate. frame. Qed.

Lemma get_info_self : keeps self _get_info.
Proof. unfold _get_info. frame. Qed.
Lemma get_info_closed : keeps obs_closed _get_info.
Proof. unfold _get_info. frame. Qed.

(** ** [logout] *)

Definition not_logged_in_message : str := ustr "Not logged in.".

Lemma logout_not_logged_in s :
  _logged_in (self s) = false ->
  logout s = Ret tt (with_world (write_stdout not_logged_in_message) s).
Proof.
  intros H. unfold logout, bind, get_self. rewrite H. reflexivity.
Qed.

Lemma logout_clears_flag s :
  _logged_in (self (final_state (logout s))) = false.
Proof.
  destruct (_logged_in (self s)) eqn:E.
  - unfold logout. unfold bind at 1, get_self at 1. rewrite E.
    unfold bind at 1, update_self at 1.
    match goal with
    | |- context [final_state (?m ?st)] =>
        assert (K : keeps self m) by frame;
        rewrite (K st)
    end.
    reflexivity.
  - rewrite logout_not_logged_in by exact E. exact E.
Qed.

(** C6.  [logout] on an object that is not logged in - be it fresh or just
    logged out by a first [logout] that returned - returns normally,
    prints [Not logged in.] and does nothing to the channel: no [quit] is
    sent, nothing is read or closed (the trace is unchanged). *)
Theorem logout_when_not_open (s : State) :
  _logged_in (self s) = false \/ (exists s0, logout s0 = Ret tt s) ->
  logout s = Ret tt (with_world (write_stdout not_logged_in_message) s)
  /\ trace (world (final_state (logout s))) = trace (world s)
  /\ stdout (world (final_state (logout s)))
     = stdout (world s) ++ [not_logged_in_message].
Proof.
  intros H.
  assert (E : _logged_in (self s) = false).
  { destruct H as [H|[s0 H]]; [exact H|].
    pose proof (logout_clears_flag s0) as C. rewrite H in C. exact C. }
  rewrite (logout_not_logged_in s E). repeat split.
Qed.

Lemma logout_when_not_open_witness :
  let s := final_state (logout (logged_in "24" [device_answer "quit" ""])) in
  sent (world s) = [blit "quit" ++ [x0d]]
  /\ logout s = Ret tt (with_world (write_stdout not_logged_in_message) s)
  /\ trace (world (final_state (logout s))) = trace (world s)
  /\ stdout (world (final_state (logout s)))
     = stdout (world s) ++ [not_logged_in_message].
Proof.
  intros s. split; [reflexivity|].
  apply (logout_when_not_open s). right.
  exists (logged_in "24" [device_answer "quit" ""]). reflexivity.
Defined.

(** ** Commands on the wire *)

Definition ascii_str (s : str) : Prop := Forall (fun c => (c < 128)%N) s.

Lemma utf8_encode_ascii (s : str) :
  ascii_str s -> utf8_encode s = Some (map byte_of_N s).
Proof.
  induction 1 as [|c s Hc _ IH]; simpl; [reflexivity|].
  rewrite IH. unfold utf8_encode_cp.
  apply N.ltb_lt in Hc. change (0x80)%N with 128%N. rewrite Hc. reflexivity.
Qed.

Lemma ascii_str_app a b : ascii_str a -> ascii_str b -> ascii_str (a ++ b).
Proof. intros Ha Hb. apply Forall_app. split; assumption. Qed.

Lemma byte_of_N_ascii (a : ascii) : byte_of_N (N_of_ascii a) = byte_of_ascii a.
Proof.
  destruct a as [[|] [|] [|] [|] [|] [|] [|] [|]]; reflexivity.
Qed.

Lemma map_byte_ustr (lit : string) : map byte_of_N (ustr lit) = blit lit.
Proof.
  unfold ustr, blit, list_byte_of_string. rewrite map_map.
  apply map_ext. exact byte_of_N_ascii.
Qed.

Lemma uint_ascii (u : Decimal.uint) : ascii_str (ustr (NilEmpty.string_of_uint u)).
Proof.
  induction u; simpl; constructor; try assumption; reflexivity.
Qed.

Lemma str_of_int_ascii (n : Z) : ascii_str (str_of_int n).
Proof.
  unfold str_of_int, NilZero.string_of_int, NilZero.string_of_uint.
  destruct (Z.to_int n) as [u|u].
  - destruct u; try apply (uint_ascii (Decimal.D0 Decimal.Nil)); apply uint_ascii.
  - change (ascii_str (45%N :: ustr match u with
                                     | Decimal.Nil => "0"%string
                                     | _ => NilEmpty.string_of_uint u
                                     end)).
    constructor; [reflexivity|].
    destruct u; try apply (uint_ascii (Decimal.D0 Decimal.Nil)); apply uint_ascii.
Qed.

Lemma ascii_str_check (s : str) :
  forallb (fun c => (c <? 128)%N) s = true -> ascii_str s.
Proof.
  intros H. apply Forall_forall. intros c Hc.
  rewrite forallb_forall in H. apply N.ltb_lt. exact (H c Hc).
Qed.

Lemma bind_Ret {A B} (m : M A) (k : A -> M B) s a s1 :
  m s = Ret a s1 -> bind m k s = k a s1.
Proof. intros E. unfold bind. rewrite E. reflexivity. Qed.

Lemma bind_Raise {A B} (m : M A) (k : A -> M B) s e s1 :
  m s = Raise e s1 -> bind m k s = Raise e s1.
Proof. intros E. unfold bind. rewrite E. reflexivity. Qed.

Lemma final_state_then_ret {A} (m : M A) s :
  final_state ((m ;; ret tt) s) = final_state (m s).
Proof. unfold bind. destruct (m s); reflexivity. Qed.

(** A command that can be encoded goes out once, as its bytes followed by
    a carriage return, whether or not an answer ever comes. *)
Lemma send_command_sent (cmd : str) (wire : bytes) (s : State) :
  utf8_encode (cmd ++ [CR]) = Some wire ->
  _channel (self s) = Some TheChannel ->
  sent (world (final_state (_send_command cmd s))) = sent (world s) ++ [wire].
Proof.
  intros E C. unfold _send_command. rewrite E.
  erewrite bind_Ret by reflexivity.
  erewrite bind_Ret by reflexivity.
  rewrite C.
  erewrite bind_Ret by reflexivity.
  erewrite bind_Ret by reflexivity.
  match goal with
  | |- sent (world (final_state (?m ?st))) = _ =>
      assert (K : keeps obs_sent m) by frame;
      specialize (K st); unfold obs_sent in K; rewrite K
  end.
  simpl. rewrite sent_log_event. reflexivity.
Qed.

(** Without a channel nothing goes out. *)
Lemma send_command_no_channel (cmd : str) (s : State) :
  _channel (self s) = None ->
  sent (world (final_state (_send_command cmd s))) = sent (world s).
Proof.
  intros C. unfold _send_command.
  destruct (utf8_encode (cmd ++ [CR])) as [wire|]; [|reflexivity].
  erewrite bind_Ret by reflexivity.
  erewrite bind_Ret by reflexivity.
  rewrite C. reflexivity.
Qed.

(** The decimal numeral of an integer, in bytes. *)
Definition decimal (n : Z) : bytes :=
  blit (NilZero.string_of_int (Z.to_int n)).

(** [set <before><n><after> 0] and a carriage return. *)
Definition set_zero_command (before : string) (n : Z) (after : string)
  : bytes :=
  blit "set " ++ blit before ++ decimal n ++ blit after ++ blit " 0" ++ [x0d].

Lemma set_object_sent (before after : string) (n : Z) (s : State) :
  ascii_str (ustr before) -> ascii_str (ustr after) ->
  _channel (self s) = Some TheChannel ->
  sent (world (final_state
                 (set_object (ustr before ++ str_of_int n ++ ustr after)
                             (ustr "0") s)))
  = sent (world s) ++ [set_zero_command before n after].
Proof.
  intros Hb Ha C. unfold set_object. apply send_command_sent; [|exact C].
  rewrite utf8_encode_ascii.
  - f_equal. unfold set_zero_command, decimal, str_of_int.
    rewrite !map_app, !map_byte_ustr, <- !app_assoc. reflexivity.
  - repeat apply ascii_str_app; auto using str_of_int_ascii;
      apply ascii_str_check; reflexivity.
Qed.



(** ** [login] *)

Lemma wait_never_raises ch ms s e s' : wait_until_ready ch ms s <> Raise e s'.
Proof.
  unfold wait_until_ready. generalize (incoming (world s)) at 1.
  intros chunks. revert s.
  induction chunks as [|c chunks IH]; intros s; simpl.
  - unfold bind, recv_ready. destruct (inbuf (world s)); discriminate.
  - unfold bind at 1, recv_ready at 1. destruct (inbuf (world s)).
    + unfold bind, sleep. apply IH.
    + discriminate.
Qed.

(** The state in which [login] starts identity discovery, when the shell
    answered: client, channel and prompt are stored. *)
Lemma login_raise_inv (s s' : State) (e : exn) :
  connect_result (world s) = None ->
  login s = Raise e s' ->
  exists s1,
    _get_info s1 = Raise e s'
    /\ _client (self s1) = Some TheClient
    /\ _channel (self s1) = Some TheChannel
    /\ _logged_in (self s1) = _logged_in (self s)
    /\ closed (world s1) = closed (world s).
Proof.
  intros C. unfold login.
  erewrite bind_Ret by reflexivity. cbv beta.
  assert (T : forall h,
             try_ (client <- ssh_connect (_host (self s)) (_user (self s))
                                         (_pass (self s)) ;;
                   ret (Some client)) h s
             = Ret (Some TheClient)
                   (with_world (log_event (EvConnect (_host (self s))
                                             (_user (self s))
                                             (_pass (self s)))) s)).
  { intros h. unfold try_, bind, ssh_connect. rewrite C. reflexivity. }
  erewrite bind_Ret by apply T. clear T. cbv beta iota.
  erewrite bind_Ret by reflexivity. cbv beta.
  match goal with
  | |- bind (wait_until_ready ?ch ?ms) ?k ?st = _ -> _ =>
      unfold bind at 1;
      pose proof (wait_self ch ms st) as Ks;
      pose proof (wait_closed ch ms st) as Kc;
      pose proof (@wait_never_raises ch ms st) as Nr;
      destruct (wait_until_ready ch ms st) as [[] s0|e0 s0|s0]
  end; [|intros _; exfalso; eapply Nr; reflexivity | discriminate].
  simpl in Ks, Kc.
  do 4 (erewrite bind_Ret by reflexivity; cbv beta).
  match goal with
  | |- bind _get_info ?k ?st = _ -> _ =>
      unfold bind at 1; destruct (_get_info st) as [i s2|e2 s2|s2] eqn:G;
      [discriminate | | discriminate];
      intros H; injection H as -> ->; exists st
  end.
  split; [exact G|].
  cbn [self world with_self set_prompt set_channel set_client
       _client _channel _logged_in].
  repeat split.
  - rewrite Ks. reflexivity.
  - unfold obs_closed in Kc. cbn [world with_world] in Kc.
    rewrite closed_log_event.
    change (closed (set_input ?b ?r ?w)) with (closed w).
    rewrite Kc, !closed_log_event. cbn [is_close].
    rewrite !orb_false_r. reflexivity.
Qed.

(** C9.  When [login], having connected, ends with an exception - the one
    identity discovery raised, at a moment when client and channel were
    already stored - the object is left not logged in with client and
    channel set and never closed; a following [logout] takes the
    not-logged-in branch, prints [Not logged in.] and closes nothing. *)
Theorem failed_login_leaves_connection_open (s s' : State) (e : exn) :
  _logged_in (self s) = false ->
  closed (world s) = false ->
  connect_result (world s) = None ->
  login s = Raise e s' ->
  (exists s1, _get_info s1 = Raise e s'
              /\ _client (self s1) = Some TheClient
              /\ _channel (self s1) = Some TheChannel
              /\ _logged_in (self s1) = false)
  /\ _logged_in (self s') = false
  /\ _client (self s') = Some TheClient
  /\ _channel (self s') = Some TheChannel
  /\ closed (world s') = false
  /\ logout s' = Ret tt (with_world (write_stdout not_logged_in_message) s')
  /\ closed (world (final_state (logout s'))) = false.
Proof.
  intros L Cl C H.
  destruct (login_raise_inv s s' e C H) as (s1 & G & Hc & Hch & Hl & Hcl).
  pose proof (keeps_Raise self _get_info s1 e s' get_info_self G) as Ks.
  pose proof (keeps_Raise obs_closed _get_info s1 e s' get_info_closed G)
    as Kc.
  unfold obs_closed in Kc.
  assert (L' : _logged_in (self s') = false) by (rewrite Ks, Hl; exact L).
  assert (Cl' : closed (world s') = false) by (rewrite Kc, Hcl; exact Cl).
  split; [exists s1; rewrite Hl; auto|].
  rewrite (logout_not_logged_in s' L').
  split; [exact L'|].
  split; [rewrite Ks; exact Hc|].
  split; [rewrite Ks; exact Hch|].
  split; [exact Cl'|].
  split; [reflexivity|].
  exact Cl'.
Qed.

Lemma failed_login_leaves_connection_open_witness :
  let s := before_login
             (identity_answers "AB12CD34EF" "XX99" "01.02.2021" "24") in
  let s' := final_state (login s) in
  raised (login s)
  = Some (Exn TypeError
            (ustr "list indices must be integers or slices, not str"))
  /\ _logged_in (self s') = false
  /\ _client (self s') = Some TheClient
  /\ _channel (self s') = Some TheChannel
  /\ closed (world s') = false
  /\ logout s' = Ret tt (with_world (write_stdout not_logged_in_message) s')
  /\ closed (world (final_state (logout s'))) = false.
Proof.
  intros s s'. split; [vm_compute; reflexivity|].
  refine (proj2 (failed_login_leaves_connection_open s s'
                   (Exn TypeError
                      (ustr "list indices must be integers or slices, not str"))
                   _ _ _ _)); vm_compute; reflexivity.
Defined.

(** ** The outlet loops of [main] *)

Section OutletLoops.
Context `{UnicodeDB}.

Lemma out_of_range_below (n : Z) (s : State) :
  (n < 1)%Z -> out_of_range n s = Ret true s.
Proof.
  intros L. unfold out_of_range. apply Z.ltb_lt in L. rewrite L. reflexivity.
Qed.

Lemma out_of_range_counted (n count : Z) (s : State) :
  (1 <= n)%Z -> number_of_outlets s = Ret count s ->
  out_of_range n s = Ret (count <? n)%Z s.
Proof.
  intros L E. unfold out_of_range.
  assert (F : (n <? 1)%Z = false) by (apply Z.ltb_ge; exact L).
  rewrite F. erewrite bind_Ret by exact E. reflexivity.
Qed.

Lemma outlet_step_skip (action : Z -> M unit) (n : Z) (s : State) :
  out_of_range n s = Ret true s ->
  outlet_step action n s
  = Ret tt (with_world (write_stdout (no_such_outlet n)) s).
Proof.
  intros E. unfold outlet_step. erewrite bind_Ret by exact E. reflexivity.
Qed.

Lemma outlet_step_act (action : Z -> M unit) (n : Z) (s : State) :
  out_of_range n s = Ret false s ->
  outlet_step action n s = action n s.
Proof.
  intros E. unfold outlet_step. erewrite bind_Ret by exact E. reflexivity.
Qed.


End OutletLoops.


(** ** Replies are short: one read of at most 1024 bytes *)

Lemma bytes_lstrip_length set b :
  List.length (bytes_lstrip set b) <= List.length b.
Proof.
  induction b as [|x b IH]; simpl; [lia|].
  destruct (mem_byte x set); simpl; lia.
Qed.

Lemma bytes_strip_length chars b :
  List.length (bytes_strip chars b) <= List.length b.
Proof.
  unfold bytes_strip, bytes_rstrip.
  rewrite length_rev.
  etransitivity; [apply bytes_lstrip_length|].
  rewrite length_rev. apply bytes_lstrip_length.
Qed.

Lemma utf8_decode_length_aux (n : nat) :
  forall b t, List.length b <= n -> utf8_decode b = Some t ->
              List.length t <= List.length b.
Proof.
  induction n as [|n IH]; intros b t L E.
  - destruct b; [|simpl in L; lia]. injection E as <-. simpl; lia.
  - destruct b as [|b0 r0]; [injection E as <-; simpl; lia|].
    simpl in L. cbn [utf8_decode] in E.
    repeat match goal with
      | E : None = Some _ |- _ => discriminate E
      | E : option_map _ (utf8_decode ?r) = Some _ |- _ =>
          let D := fresh "D" in
          destruct (utf8_decode r) as [t0|] eqn:D; [|discriminate E];
          injection E as <-;
          assert (List.length t0 <= List.length r)
            by (apply IH; [simpl in *; lia | exact D]);
          simpl in *; lia
      | E : context [match ?r with [] => _ | _ :: _ => _ end] |- _ =>
          is_var r; destruct r; simpl in L
      | E : context [if ?c then _ else _] |- _ => destruct c
      end.
Qed.

Lemma utf8_decode_length b t :
  utf8_decode b = Some t -> List.length t <= List.length b.
Proof. apply (utf8_decode_length_aux (List.length b)); lia. Qed.

Lemma str_remove_length c s : List.length (str_remove c s) <= List.length s.
Proof. apply filter_length_le. Qed.

Lemma reply_of_length prompt send data r :
  reply_of prompt send data = Some r -> List.length r <= List.length data.
Proof.
  unfold reply_of.
  destruct (utf8_decode _) as [text|] eqn:D; [|discriminate].
  intros E; injection E as <-.
  apply utf8_decode_length in D.
  pose proof (bytes_strip_length (Some send) (bytes_strip prompt data)).
  pose proof (bytes_strip_length prompt data).
  pose proof (str_remove_length LF (str_remove CR text)).
  pose proof (str_remove_length CR text).
  lia.
Qed.

Lemma bind_Ret_inv {A B} (m : M A) (k : A -> M B) s b s' :
  bind m k s = Ret b s' -> exists a s1, m s = Ret a s1 /\ k a s1 = Ret b s'.
Proof.
  unfold bind. destruct (m s) as [a s1|e s1|s1]; try discriminate.
  intros E. exists a, s1. auto.
Qed.

Lemma lift_opt_Ret_inv {A} (o : option A) e s a s' :
  lift_opt o e s = Ret a s' -> o = Some a /\ s' = s.
Proof.
  destruct o; simpl; unfold ret, raise; intros E; inversion E; auto.
Qed.

Lemma channel_recv_length ch n s d s' :
  channel_recv ch n s = Ret d s' -> List.length d <= n.
Proof.
  unfold channel_recv. intros E.
  assert (D : d = firstn n (inbuf (world s))) by congruence.
  rewrite D, length_firstn. lia.
Qed.

Lemma send_command_reply_length cmd s r s' :
  _send_command cmd s = Ret r s' -> List.length r <= 1024.
Proof.
  unfold _send_command. intros E.
  repeat match goal with
    | E : bind _ _ _ = Ret _ _ |- _ =>
        apply bind_Ret_inv in E; destruct E as (? & ? & ? & E)
    end.
  apply lift_opt_Ret_inv in E. destruct E as [E _].
  apply reply_of_length in E.
  match goal with
  | R : channel_recv _ _ _ = Ret _ _ |- _ => apply channel_recv_length in R
  end.
  lia.
Qed.

(** ** Identity discovery and the outlet count *)

Definition serial_key : str := ustr "PDU.PowerSummary.iSerialNumber".
Definition part_key : str := ustr "PDU.PowerSummary.iPartNumber".
Definition version_key : str := ustr "PDU.PowerSummary.iVersion".
Definition count_key : str := ustr "PDU.OutletSystem.Outlet.Count".

(** What the four queries return, when they all return: one entry per
    object, in the order of [objects], each value a reply of at most 1024
    characters. *)
Lemma query_objects_shape (s s1 : State) (params : dict) :
  query_objects objects [] s = Ret params s1 ->
  exists serial part version count,
    params = [(serial_key, serial); (part_key, part);
              (version_key, version); (count_key, count)]
    /\ List.length count <= 1024.
Proof.
  unfold objects. cbn [query_objects]. unfold get_object. intros E.
  apply bind_Ret_inv in E. destruct E as (serial & sa & _ & E).
  apply bind_Ret_inv in E. destruct E as (part & sb & _ & E).
  apply bind_Ret_inv in E. destruct E as (version & sc & _ & E).
  apply bind_Ret_inv in E. destruct E as (count & sd & Hc & E).
  apply send_command_reply_length in Hc.
  injection E as <- _.
  exists serial, part, version, count. split; [reflexivity | exact Hc].
Qed.

Lemma validate_ok (params : dict) (serial part version : str) (s : State) :
  dict_lookup params version_key = Some version ->
  dict_lookup params serial_key = Some serial ->
  dict_lookup params part_key = Some part ->
  _is_version_ok (VStr version) = inr true ->
  _is_serial_ok (VStr serial) = inr true ->
  _is_part_number_ok (VStr part) = true ->
  validate params s = Ret tt s.
Proof.
  intros Lv Ls Lp Ov Os Op.
  assert (Gv : dict_getitem params version_key = inr version)
    by (unfold dict_getitem; rewrite Lv; reflexivity).
  assert (Gs : dict_getitem params serial_key = inr serial)
    by (unfold dict_getitem; rewrite Ls; reflexivity).
  assert (Gp : dict_getitem params part_key = inr part)
    by (unfold dict_getitem; rewrite Lp; reflexivity).
  unfold version_key, serial_key, part_key in Gv, Gs, Gp.
  unfold validate. rewrite Gv, Gs, Gp.
  erewrite bind_Ret by reflexivity. cbv beta. rewrite Ov.
  do 3 (erewrite bind_Ret by reflexivity; cbv beta). rewrite Os.
  do 3 (erewrite bind_Ret by reflexivity; cbv beta). rewrite Op.
  reflexivity.
Qed.

Section OutletCount.
Context `{UnicodeDB}.

(** A reply is numeric when [int] converts it. *)
Definition numeric (s : str) : Prop := exists z, py_int s = inr z.

(** A decimal integer literal: one or more of the digits 0-9. *)
Definition decimal_literal (s : str) : Prop :=
  s <> [] /\ Forall (fun c => is_ascii_digit c = true) s.

Definition decimal_value (s : str) : N :=
  fold_left (fun acc c => 10 * acc + (c - 48))%N s 0%N.

Lemma py_int_error (s : str) (e : exn) :
  py_int s = inl e -> exists msg, e = Exn ValueError msg.
Proof.
  unfold py_int, invalid_literal.
  repeat match goal with
    | |- context [match ?x with _ => _ end] => destruct x
    end;
    intros E; try discriminate E; injection E as <-; eexists; reflexivity.
Qed.

Lemma digit_bounds c : is_ascii_digit c = true -> (48 <= c <= 57)%N.
Proof.
  unfold is_ascii_digit. rewrite andb_true_iff, !N.leb_le. tauto.
Qed.

Lemma scan_digits_all (l : str) :
  Forall (fun c => is_ascii_digit c = true) l ->
  forall acc count,
    scan_digits l false acc count
    = Some (fold_left (fun a c => 10 * a + (c - 48))%N l acc,
            (count + N.of_nat (List.length l))%N, []).
Proof.
  induction 1 as [|c l Hc _ IH]; intros acc count;
    cbn [scan_digits fold_left List.length].
  - rewrite N.add_0_r. reflexivity.
  - rewrite Hc, IH, Nat2N.inj_succ.
    replace (count + 1 + N.of_nat (List.length l))%N
      with (count + N.succ (N.of_nat (List.length l)))%N by lia.
    reflexivity.
Qed.

Lemma to_ascii_decimal_digits (l : str) :
  Forall (fun c => is_ascii_digit c = true) l ->
  map to_ascii_decimal l = l.
Proof.
  induction 1 as [|c l Hc _ IH]; simpl; [reflexivity|].
  rewrite IH. unfold to_ascii_decimal.
  apply digit_bounds in Hc.
  assert (E : (c <? 127)%N = true) by (apply N.ltb_lt; lia).
  rewrite E. reflexivity.
Qed.

Lemma py_int_decimal_literal (s : str) :
  decimal_literal s -> List.length s <= 4300 ->
  py_int s = inr (Z.of_N (decimal_value s)).
Proof.
  intros [Hne Hd] Hlen. unfold py_int.
  rewrite (to_ascii_decimal_digits s Hd).
  destruct s as [|c l]; [contradiction|].
  pose proof (Forall_inv Hd) as Hc. pose proof (digit_bounds c Hc) as Hb.
  assert (Sp : is_space_ascii c = false).
  { unfold is_space_ascii.
    apply orb_false_iff; split;
      [apply andb_false_iff; right; apply N.leb_gt; lia
      | apply N.eqb_neq; lia]. }
  cbn [skip_spaces]. rewrite Sp.
  assert (E1 : (c =? 43)%N = false) by (apply N.eqb_neq; lia).
  assert (E2 : (c =? 45)%N = false) by (apply N.eqb_neq; lia).
  assert (E3 : (c =? 95)%N = false) by (apply N.eqb_neq; lia).
  rewrite E1, E2, E3.
  rewrite (scan_digits_all (c :: l) Hd 0%N 0%N).
  change (0 + N.of_nat (List.length (c :: l)))%N
    with (N.of_nat (List.length (c :: l))).
  assert (L1 : (int_max_str_digits <? N.of_nat (List.length (c :: l)))%N
               = false).
  { apply N.ltb_ge. unfold int_max_str_digits. lia. }
  assert (L2 : (N.of_nat (List.length (c :: l)) =? 0)%N = false).
  { apply N.eqb_neq. simpl. lia. }
  rewrite L1, L2. reflexivity.
Qed.

Lemma number_of_outlets_unfold (s : State) (info : dict) (cnt : str) :
  _info (self s) = Some info ->
  dict_lookup info count_key = Some cnt ->
  number_of_outlets s = lift (py_int cnt) s.
Proof.
  intros I L. unfold number_of_outlets, dict_getitem. fold count_key.
  erewrite bind_Ret by reflexivity. rewrite I.
  erewrite bind_Ret by reflexivity. rewrite L.
  erewrite bind_Ret by reflexivity. reflexivity.
Qed.


End OutletCount.



(** ** What a failed validation raises *)

(** Computations that never raise [ePDUException]. *)
Definition never_ePDUException {A} (m : M A) : Prop :=
  forall s e s', m s = Raise e s' -> forall msg, e <> Exn ePDUException msg.

Lemma never_bind {A B} (m : M A) (k : A -> M B) :
  never_ePDUException m -> (forall a, never_ePDUException (k a)) ->
  never_ePDUException (bind m k).
Proof.
  intros Hm Hk s e s'. unfold bind.
  destruct (m s) as [a s1|e1 s1|s1] eqn:E; intros R.
  - exact (Hk a s1 e s' R).
  - injection R as <- <-. exact (Hm s e1 s1 E).
  - discriminate R.
Qed.

Lemma never_ret {A} (a : A) : never_ePDUException (ret a).
Proof. intros s e s' E. discriminate E. Qed.

Lemma never_getitem (d : dict) (k : str) :
  never_ePDUException (lift (dict_getitem d k)).
Proof.
  unfold dict_getitem. destruct (dict_lookup d k) as [v|]; intros s e s' E.
  - discriminate E.
  - injection E as <- _. discriminate.
Qed.

(** The message of each validation error is [objects[<name>]] appended to
    a label; evaluating the subscript raises [TypeError]. *)
Lemma never_message (key label : str) :
  never_ePDUException
    (x <- lift (list_getitem objects (SubStr key)) ;;
     @raise unit (Exn ePDUException (label ++ x))).
Proof. intros s e s' E. injection E as <- _. discriminate. Qed.

(** [validate] never raises [ePDUException]: building the message fails
    first. *)
Lemma validate_never_ePDUException (params : dict) :
  never_ePDUException (validate params).
Proof.
  unfold validate.
  apply never_bind; [apply never_getitem|]. intros version.
  rewrite version_ok_unfold.
  apply never_bind; [apply never_ret|]. intros version_ok.
  apply never_bind;
    [destruct version_ok; [apply never_ret | apply never_message]|].
  intros _.
  apply never_bind; [apply never_getitem|]. intros serial.
  rewrite serial_ok_unfold.
  apply never_bind; [apply never_ret|]. intros serial_ok.
  apply never_bind;
    [destruct serial_ok; [apply never_ret | apply never_message]|].
  intros _.
  apply never_bind; [apply never_getitem|]. intros part.
  destruct (_is_part_number_ok (VStr part));
    [apply never_ret | apply never_message].
Qed.

(** C2.  With the part-number reply [XX99] (serial number and version
    valid), identity discovery ends with the [TypeError] of subscripting
    the list [objects] with a string, raised while the message of the
    validation error is being built - not with an [ePDUException] naming
    the part number. *)
Theorem part_number_failure_raises_TypeError :
  let s := shell_open
             (identity_answers "AB12CD34EF" "XX99" "01.02.2021" "24") in
  raised (_get_info s)
  = Some (Exn TypeError
            (ustr "list indices must be integers or slices, not str"))
  /\ _is_part_number_ok (VStr (ustr "XX99")) = false
  /\ forall msg, raised (_get_info s) <> Some (Exn ePDUException msg).
Proof.
  intros s.
  assert (E : raised (_get_info s)
              = Some (Exn TypeError
                        (ustr "list indices must be integers or slices, not str")))
    by (vm_compute; reflexivity).
  split; [exact E|]. split; [reflexivity|].
  intros msg. rewrite E. discriminate.
Qed.

(** ** Stripping prompt and echo *)

Fixpoint bytes_prefix (p b : bytes) : bool :=
  match p, b with
  | [], _ => true
  | x :: p', y :: b' => Byte.eqb x y && bytes_prefix p' b'
  | _ :: _, [] => false
  end.

(** Whether [p] occurs in [b] as a contiguous run of bytes. *)
Fixpoint bytes_infix (p b : bytes) : bool :=
  bytes_prefix p b
  || match b with
     | [] => false
     | _ :: b' => bytes_infix p b'
     end.

(** C1.  Prompt [pdu#0>], command [get PDU.PowerSummary.iSerialNumber],
    response: the echoed command, the payload [SN12345678], a line end and
    the prompt.  The payload contains neither the prompt nor the echoed
    command, yet the reply is [12345678]: [strip] removes every leading
    byte that occurs anywhere in the command, so the [S] and the [N] of the
    payload go with the echo. *)
Theorem strip_removes_payload_bytes :
  let prompt := blit "pdu#0>" in
  let send := blit "get PDU.PowerSummary.iSerialNumber" ++ [x0d] in
  let payload := blit "SN12345678" in
  let data := send ++ payload ++ crlf ++ prompt in
  bytes_infix prompt payload = false
  /\ bytes_infix send payload = false
  /\ reply_of (Some prompt) send data = Some (ustr "12345678")
  /\ exists s',
      _send_command (ustr "get PDU.PowerSummary.iSerialNumber")
                    (shell_open [data])
      = Ret (ustr "12345678") s'.
Proof.
  intros prompt send payload data.
  split; [reflexivity|]. split; [reflexivity|].
  split; [vm_compute; reflexivity|].
  eexists. vm_compute. reflexivity.
Qed.

(** * Further properties of the code *)

(** ** [login]: the connection fails *)

(** The state after a connection attempt that printed [line]. *)
Definition connect_failed (line : str) (s : State) : State :=
  with_world (write_stdout line)
    (with_world (log_event (EvConnect (_host (self s)) (_user (self s))
                              (_pass (self s)))) s).

(** X1.  When [connect] raises one of the four exceptions [login] catches,
    [login] returns [False] after printing the message of that exception;
    the object is untouched and nothing but the connection attempt was
    done.  Any other exception of [connect] propagates. *)
Theorem login_connection_failure (s : State) (msg : str) :
  (connect_result (world s) = Some (Exn socket_timeout msg) ->
   login s = Ret false (connect_failed (_host (self s) ++ ustr " time out") s))
  /\ (connect_result (world s) = Some (Exn BadHostKeyException msg) ->
      login s = Ret false
                  (connect_failed
                     (ustr "Server host key could not be verified: " ++ msg)
                     s))
  /\ (connect_result (world s) = Some (Exn AuthenticationException msg) ->
      login s = Ret false
                  (connect_failed
                     (ustr "Authentication failed: " ++ _host (self s)) s))
  /\ (connect_result (world s) = Some (Exn SSHException msg) ->
      login s = Ret false
                  (connect_failed
                     (ustr "Unable to establish SSH connection: " ++ msg) s))
  /\ (forall c, connect_result (world s) = Some (Exn c msg) ->
        c <> socket_timeout -> c <> BadHostKeyException ->
        c <> AuthenticationException -> c <> SSHException ->
        login s = Raise (Exn c msg)
                    (with_world
                       (log_event (EvConnect (_host (self s)) (_user (self s))
                                     (_pass (self s)))) s)).
Proof.
  split; [|split; [|split; [|split]]].
  1-4: intros E; unfold login, bind, try_, ssh_connect, get_self;
       rewrite E; reflexivity.
  intros c E N1 N2 N3 N4.
  unfold login, bind, try_, ssh_connect, get_self; rewrite E.
  destruct c; try reflexivity; contradiction.
Qed.

Definition refusing (e : exn) : State :=
  {| self := ePDU_init (ustr "10.0.0.7") (ustr "admin") (ustr "wrong");
     world := {| connect_result := Some e; inbuf := []; incoming := [];
                 trace := []; stdout := [] |} |}.

Lemma login_connection_failure_witness :
  let s := refusing (Exn AuthenticationException (ustr "Authentication failed.")) in
  login s = Ret false
              (connect_failed (ustr "Authentication failed: 10.0.0.7") s)
  /\ self (final_state (login s)) = self s
  /\ trace (world (final_state (login s)))
     = [EvConnect (ustr "10.0.0.7") (ustr "admin") (ustr "wrong")].
Proof.
  intros s.
  pose proof (proj1 (proj2 (proj2 (login_connection_failure s
                (ustr "Authentication failed.")))) eq_refl) as E.
  split; [exact E|]. rewrite E. split; reflexivity.
Defined.

(** ** The validators on arbitrary values *)

(** X2.  The serial-number and version validators never raise, whatever
    value they are given, and answer [False] for every value that is not a
    string; the part-number validator answers [False] for every value that
    is not a string. *)
Theorem validators_total (v : value) :
  (exists b, _is_serial_ok v = inr b)
  /\ (exists b, _is_version_ok v = inr b)
  /\ ((forall s, v <> VStr s) ->
      _is_serial_ok v = inr false /\ _is_version_ok v = inr false
      /\ _is_part_number_ok v = false).
Proof.
  destruct v as [|s|b|n].
  - repeat split; try (eexists; reflexivity).
  - rewrite serial_ok_unfold, version_ok_unfold.
    split; [eexists; reflexivity|]. split; [eexists; reflexivity|].
    intros N. exfalso. exact (N s eq_refl).
  - repeat split; try (eexists; reflexivity).
  - repeat split; try (eexists; reflexivity).
Qed.

Lemma validators_total_witness :
  _is_serial_ok (VBytes (blit "AB12CD34EF")) = inr false
  /\ _is_version_ok (VBytes (blit "AB12CD34EF")) = inr false
  /\ _is_part_number_ok (VBytes (blit "AB12CD34EF")) = false.
Proof.
  apply (proj2 (proj2 (validators_total (VBytes (blit "AB12CD34EF"))))).
  intros s. discriminate.
Defined.

(** ** The validations of [_get_info] *)

Definition subscript_error : exn :=
  Exn TypeError (ustr "list indices must be integers or slices, not str").

(** X3.  On replies for version, serial number and part number,
    [validate] returns when all three validators accept and otherwise
    raises the [TypeError] of the list subscript; either way it changes
    nothing. *)
Theorem validate_outcome (params : dict) (serial part version : str)
        (version_ok serial_ok : bool) (s : State) :
  dict_lookup params version_key = Some version ->
  dict_lookup params serial_key = Some serial ->
  dict_lookup params part_key = Some part ->
  _is_version_ok (VStr version) = inr version_ok ->
  _is_serial_ok (VStr serial) = inr serial_ok ->
  validate params s
  = if version_ok && serial_ok && _is_part_number_ok (VStr part)
    then Ret tt s
    else Raise subscript_error s.
Proof.
  intros Lv Ls Lp Ov Os.
  assert (Gv : dict_getitem params version_key = inr version)
    by (unfold dict_getitem; rewrite Lv; reflexivity).
  assert (Gs : dict_getitem params serial_key = inr serial)
    by (unfold dict_getitem; rewrite Ls; reflexivity).
  assert (Gp : dict_getitem params part_key = inr part)
    by (unfold dict_getitem; rewrite Lp; reflexivity).
  unfold version_key, serial_key, part_key in Gv, Gs, Gp.
  unfold validate. rewrite Gv, Gs, Gp.
  erewrite bind_Ret by reflexivity. cbv beta. rewrite Ov.
  erewrite bind_Ret by reflexivity. cbv beta.
  destruct version_ok; [|reflexivity].
  do 2 (erewrite bind_Ret by reflexivity; cbv beta). rewrite Os.
  erewrite bind_Ret by reflexivity. cbv beta.
  destruct serial_ok; [|reflexivity].
  do 2 (erewrite bind_Ret by reflexivity; cbv beta).
  destruct (_is_part_number_ok (VStr part)); reflexivity.
Qed.

Lemma validate_outcome_witness :
  validate (identity_info "SHORT" "EILB13" "01.02.2021" "24") (shell_open [])
  = Raise subscript_error (shell_open []).
Proof.
  apply (validate_outcome (identity_info "SHORT" "EILB13" "01.02.2021" "24")
           (ustr "SHORT") (ustr "EILB13") (ustr "01.02.2021") true false
           (shell_open []));
    reflexivity.
Defined.

(** ** Replies *)

Lemma str_remove_In (c x : codepoint) (s : str) :
  In x (str_remove c s) <-> In x s /\ x <> c.
Proof.
  unfold str_remove. rewrite filter_In, negb_true_iff, N.eqb_neq. tauto.
Qed.

(** X4.  A reply that [_send_command] returns is a single line of at most
    1024 characters: it contains neither a carriage return nor a line
    feed. *)
Theorem reply_single_line (cmd : str) (s s' : State) (r : str) :
  _send_command cmd s = Ret r s' ->
  ~ In CR r /\ ~ In LF r /\ List.length r <= 1024.
Proof.
  intros E. split; [|split].
  - unfold _send_command in E.
    repeat match goal with
      | E : bind _ _ _ = Ret _ _ |- _ =>
          apply bind_Ret_inv in E; destruct E as (? & ? & ? & E)
      end.
    apply lift_opt_Ret_inv in E. destruct E as [E _].
    unfold reply_of in E. destruct (utf8_decode _); [|discriminate].
    injection E as <-. rewrite !str_remove_In. intros [[_ N] _].
    apply N; reflexivity.
  - unfold _send_command in E.
    repeat match goal with
      | E : bind _ _ _ = Ret _ _ |- _ =>
          apply bind_Ret_inv in E; destruct E as (? & ? & ? & E)
      end.
    apply lift_opt_Ret_inv in E. destruct E as [E _].
    unfold reply_of in E. destruct (utf8_decode _); [|discriminate].
    injection E as <-. rewrite !str_remove_In. intros [_ N].
    apply N; reflexivity.
  - exact (send_command_reply_length cmd s r s' E).
Qed.

Lemma reply_single_line_witness :
  let s := shell_open [device_answer "get PDU.PowerSummary.iVersion"
                                     "01.02.2021"] in
  let r := ustr "01.02.2021" in
  _send_command (ustr "get PDU.PowerSummary.iVersion") s
  = Ret r (final_state
             (_send_command (ustr "get PDU.PowerSummary.iVersion") s))
  /\ ~ In CR r /\ ~ In LF r /\ List.length r <= 1024.
Proof.
  intros s r.
  assert (E : _send_command (ustr "get PDU.PowerSummary.iVersion") s
              = Ret r (final_state
                         (_send_command
                            (ustr "get PDU.PowerSummary.iVersion") s)))
    by (vm_compute; reflexivity).
  split; [exact E|].
  exact (reply_single_line _ _ _ _ E).
Defined.

(** ** [get_object] and [set_object] on the wire *)

Lemma utf8_encode_app (a b : str) (x y : bytes) :
  utf8_encode a = Some x -> utf8_encode b = Some y ->
  utf8_encode (a ++ b) = Some (x ++ y).
Proof.
  revert x. induction a as [|c a IH]; intros x Ha Hb; simpl in *.
  - injection Ha as <-. exact Hb.
  - destruct (utf8_encode_cp c) as [bc|]; [|discriminate].
    destruct (utf8_encode a) as [ba|]; [|discriminate].
    injection Ha as <-. rewrite (IH ba eq_refl Hb).
    rewrite app_assoc. reflexivity.
Qed.

(** X5.  With a channel, [get_object path] hands the channel exactly one
    chunk, the bytes of [get <path>] and a carriage return, and
    [set_object path val] exactly one, [set <path> <val>] and a carriage
    return, for every path and value that UTF-8 can encode - whatever the
    device does afterwards. *)
Theorem get_set_on_the_wire (path val : str) (p v : bytes) (s : State) :
  _channel (self s) = Some TheChannel ->
  utf8_encode path = Some p -> utf8_encode val = Some v ->
  sent (world (final_state (get_object path s)))
  = sent (world s) ++ [blit "get " ++ p ++ [x0d]]
  /\ sent (world (final_state (set_object path val s)))
     = sent (world s) ++ [blit "set " ++ p ++ blit " " ++ v ++ [x0d]].
Proof.
  intros C Hp Hv. split.
  - unfold get_object. apply send_command_sent; [|exact C].
    rewrite <- app_assoc.
    apply (utf8_encode_app (ustr "get ") (path ++ [CR]) (blit "get ")
                           (p ++ [x0d])); [reflexivity|].
    apply utf8_encode_app; [exact Hp | reflexivity].
  - unfold set_object. apply send_command_sent; [|exact C].
    rewrite <- !app_assoc.
    apply (utf8_encode_app (ustr "set ") _ (blit "set ")); [reflexivity|].
    apply utf8_encode_app; [exact Hp|].
    apply (utf8_encode_app (ustr " ") _ (blit " ")); [reflexivity|].
    apply utf8_encode_app; [exact Hv | reflexivity].
Qed.

Lemma get_set_on_the_wire_witness :
  let path := ustr "PDU.OutletSystem.Outlet[2].DelayBeforeShutdown" in
  sent (world (final_state (get_object path (shell_open []))))
  = [blit "get PDU.OutletSystem.Outlet[2].DelayBeforeShutdown" ++ [x0d]]
  /\ sent (world (final_state (set_object path (ustr "0") (shell_open []))))
     = [blit "set PDU.OutletSystem.Outlet[2].DelayBeforeShutdown 0"
        ++ [x0d]].
Proof.
  intros path.
  apply (get_set_on_the_wire path (ustr "0")
           (blit "PDU.OutletSystem.Outlet[2].DelayBeforeShutdown") (blit "0")
           (shell_open [])); reflexivity.
Defined.

(** ** When stripping is exact *)

(** The payload is guarded against a set of bytes when it is not empty and
    neither its first nor its last byte occurs in the set. *)
Definition guards (set payload : bytes) : Prop :=
  match payload with
  | [] => False
  | x :: _ => mem_byte x set = false /\ mem_byte (last payload x) set = false
  end.

Lemma mem_byte_In (b : byte) (l : bytes) : In b l -> mem_byte b l = true.
Proof.
  intros H. unfold mem_byte. apply existsb_exists. exists b. split; [exact H|].
  apply Byte.byte_dec_lb. reflexivity.
Qed.

Lemma lstrip_all (set pre rest : bytes) :
  Forall (fun b => mem_byte b set = true) pre ->
  bytes_lstrip set (pre ++ rest) = bytes_lstrip set rest.
Proof.
  induction 1 as [|b pre Hb _ IH]; simpl; [reflexivity|].
  rewrite Hb. exact IH.
Qed.

Lemma lstrip_stop (set : bytes) (x : byte) (rest : bytes) :
  mem_byte x set = false -> bytes_lstrip set (x :: rest) = x :: rest.
Proof. intros H. simpl. rewrite H. reflexivity. Qed.

(** Stripping in front of a guarded byte leaves a suffix of what was in
    front. *)
Lemma lstrip_suffix (set pre : bytes) (x : byte) (rest : bytes) :
  mem_byte x set = false ->
  exists pre0 suf, pre = pre0 ++ suf
                   /\ bytes_lstrip set (pre ++ x :: rest) = suf ++ x :: rest.
Proof.
  intros Hx. induction pre as [|b pre IH].
  - exists [], []. split; [reflexivity|]. apply lstrip_stop; exact Hx.
  - simpl. destruct (mem_byte b set).
    + destruct IH as (pre0 & suf & -> & E).
      exists (b :: pre0), suf. split; [reflexivity | exact E].
    + exists [], (b :: pre). split; reflexivity.
Qed.

Lemma rstrip_last (set front init : bytes) (l : byte) (back : bytes) :
  mem_byte l set = false ->
  Forall (fun b => mem_byte b set = true) back ->
  bytes_rstrip set (front ++ (init ++ [l]) ++ back) = front ++ init ++ [l].
Proof.
  intros Hl Hb. unfold bytes_rstrip.
  rewrite !rev_app_distr. simpl (rev [l]).
  rewrite <- !app_assoc.
  rewrite lstrip_all by (apply Forall_rev; exact Hb).
  simpl app at 1. rewrite lstrip_stop by exact Hl.
  simpl rev. rewrite rev_app_distr, !rev_involutive, <- app_assoc.
  reflexivity.
Qed.

Lemma rstrip_guarded (set front payload back : bytes) :
  guards set payload ->
  Forall (fun b => mem_byte b set = true) back ->
  bytes_rstrip set (front ++ payload ++ back) = front ++ payload.
Proof.
  intros G Hb.
  destruct payload as [|x rest]; [contradiction|].
  destruct G as [_ Hl].
  assert (Ne : x :: rest <> []) by discriminate.
  rewrite (app_removelast_last x Ne).
  rewrite (app_removelast_last x Ne) in Hl at 1.
  rewrite last_last in Hl.
  apply rstrip_last; assumption.
Qed.

(** X6.  When the response is the echoed command, a payload and the
    prompt, and the payload begins and ends with bytes that occur neither
    in the prompt nor in the command, the two [strip] calls leave exactly
    the payload, and the reply is the payload decoded, without carriage
    returns and line feeds. *)
Theorem strip_exact_when_guarded (prompt send payload : bytes) :
  guards prompt payload -> guards send payload ->
  bytes_strip (Some send)
    (bytes_strip (Some prompt) (send ++ payload ++ prompt)) = payload
  /\ reply_of (Some prompt) send (send ++ payload ++ prompt)
     = option_map (fun text => str_remove LF (str_remove CR text))
                  (utf8_decode payload).
Proof.
  intros Gp Gs.
  assert (E : bytes_strip (Some send)
                (bytes_strip (Some prompt) (send ++ payload ++ prompt))
              = payload).
  { unfold bytes_strip.
    destruct payload as [|x rest] eqn:P; [contradiction|].
    destruct (lstrip_suffix prompt send x (rest ++ prompt) (proj1 Gp))
      as (pre0 & suf & Es & El).
    change (send ++ (x :: rest) ++ prompt)
      with (send ++ x :: rest ++ prompt).
    rewrite El.
    change (suf ++ x :: rest ++ prompt) with (suf ++ (x :: rest) ++ prompt).
    rewrite (rstrip_guarded prompt suf (x :: rest) prompt Gp)
      by (apply Forall_forall; intros b Hb; apply mem_byte_In; exact Hb).
    rewrite lstrip_all.
    - rewrite lstrip_stop by exact (proj1 Gs).
      rewrite <- (app_nil_r (x :: rest)) at 1.
      rewrite <- (app_nil_l ((x :: rest) ++ [])).
      rewrite (rstrip_guarded send [] (x :: rest) [] Gs) by constructor.
      reflexivity.
    - apply Forall_forall. intros b Hb. apply mem_byte_In.
      rewrite Es. apply in_or_app. right. exact Hb. }
  split; [exact E|].
  unfold reply_of. rewrite E. destruct (utf8_decode payload); reflexivity.
Qed.

Lemma strip_exact_when_guarded_witness :
  let prompt := blit "pdu#0>" in
  let send := blit "get PDU.PowerSummary.iSerialNumber" ++ [x0d] in
  let payload := [x0a] ++ blit "SN12345678" ++ crlf in
  reply_of (Some prompt) send (send ++ payload ++ prompt)
  = Some (ustr "SN12345678").
Proof.
  intros prompt send payload.
  rewrite (proj2 (strip_exact_when_guarded prompt send payload
                    (conj eq_refl eq_refl) (conj eq_refl eq_refl))).
  reflexivity.
Defined.

(** ** Waiting for the device *)

Definition decode_error : exn := Exn UnicodeDecodeError (ustr "invalid utf-8").

Lemma wait_when_pending (ch : ssh_channel) (ms : N) (s : State) :
  inbuf (world s) <> [] ->
  wait_until_ready ch ms s
  = Ret tt (with_world (log_event (EvRecvReady true)) s).
Proof.
  intros Ne. unfold wait_until_ready.
  destruct (incoming (world s)); simpl; unfold bind, recv_ready;
    destruct (inbuf (world s)); try contradiction; reflexivity.
Qed.

(** X7.  [_send_command] does not drain the channel before it sends: when
    unread bytes are pending, it sends the command, finds the channel
    ready at the first poll, and computes the reply from the first 1024
    pending bytes; what lies beyond stays unread for the next command. *)
Theorem send_command_reads_pending (cmd : str) (wire : bytes) (s : State) :
  utf8_encode (cmd ++ [CR]) = Some wire ->
  _channel (self s) = Some TheChannel ->
  inbuf (world s) <> [] ->
  let data := firstn 1024 (inbuf (world s)) in
  let s' := final_state (_send_command cmd s) in
  trace (world s')
  = trace (world s) ++ [EvSend wire; EvRecvReady true; EvRecv 1024 data]
  /\ inbuf (world s') = skipn 1024 (inbuf (world s))
  /\ incoming (world s') = incoming (world s)
  /\ _send_command cmd s
     = match reply_of (_prompt (self s)) wire data with
       | Some r => Ret r s'
       | None => Raise decode_error s'
       end.
Proof.
  intros E C Ne data s'.
  assert (U : _send_command cmd s
              = lift_opt (reply_of (_prompt (self s)) wire data) decode_error
                  {| self := self s;
                     world :=
                       log_event (EvRecv 1024 data)
                         (set_input (skipn 1024 (inbuf (world s)))
                            (incoming (world s))
                            (log_event (EvRecvReady true)
                               (log_event (EvSend wire) (world s)))) |}).
  { unfold _send_command. rewrite E.
    erewrite bind_Ret by reflexivity. cbv beta.
    erewrite bind_Ret by reflexivity. cbv beta. rewrite C.
    erewrite bind_Ret by reflexivity. cbv beta.
    erewrite bind_Ret by reflexivity. cbv beta.
    erewrite bind_Ret by (apply wait_when_pending; exact Ne). cbv beta.
    erewrite bind_Ret by reflexivity. cbv beta.
    erewrite bind_Ret by reflexivity. cbv beta.
    reflexivity. }
  subst s'. rewrite U.
  destruct (reply_of (_prompt (self s)) wire data) as [r|];
    cbn [lift_opt ret raise final_state world inbuf incoming trace
         log_event set_input];
    rewrite <- !app_assoc; repeat split.
Qed.

Lemma send_command_reads_pending_witness :
  let stale := blit "pdu#0>" in
  let s := with_world (set_input stale
                         [device_answer "get PDU.OutletSystem.Outlet.Count"
                                        "24"])
             (shell_open []) in
  _send_command (ustr "get PDU.OutletSystem.Outlet.Count") s
  = Ret [] (final_state
              (_send_command (ustr "get PDU.OutletSystem.Outlet.Count") s)).
Proof.
  intros stale s.
  rewrite (proj2 (proj2 (proj2
             (send_command_reads_pending
                (ustr "get PDU.OutletSystem.Outlet.Count")
                (blit "get PDU.OutletSystem.Outlet.Count" ++ [x0d]) s
                eq_refl eq_refl ltac:(discriminate))))).
  vm_compute. reflexivity.
Defined.

Lemma poll_loop_silent (ch : ssh_channel) (ms : N) (chunks : list bytes) :
  Forall (fun c => c = []) chunks ->
  forall s, inbuf (world s) = [] -> incoming (world s) = chunks ->
            exists s', poll_loop ch ms chunks s = Hang s'
                       /\ self s' = self s
                       /\ sent (world s') = sent (world s)
                       /\ closed (world s') = closed (world s).
Proof.
  induction 1 as [|c chunks Hc _ IH]; intros s Hin Hinc.
  - simpl. unfold bind, recv_ready. rewrite Hin.
    eexists. split; [reflexivity|]. simpl.
    rewrite sent_log_event, closed_log_event. simpl.
    rewrite app_nil_r, orb_false_r. auto.
  - subst c. cbn [poll_loop]. unfold bind at 1, recv_ready at 1.
    rewrite Hin. unfold bind at 1, sleep at 1.
    cbn [world with_world log_event incoming inbuf]. rewrite Hinc, Hin.
    edestruct IH as (s' & E & Hs & Hse & Hcl);
      [| | rewrite E; exists s'; split; [reflexivity|]].
    + reflexivity.
    + reflexivity.
    + rewrite Hs, Hse, Hcl. cbn [self world set_input].
      unfold sent, closed. cbn [trace log_event set_input].
      rewrite !flat_map_app, !existsb_app. simpl.
      rewrite !app_nil_r, !orb_false_r. auto.
Qed.

(** X8.  There is no timeout: when nothing is pending and the device never
    sends a byte, [_send_command] sends the command and then polls for
    ever; nothing is read and nothing is closed. *)
Theorem send_command_hangs_when_silent (cmd : str) (wire : bytes)
        (s : State) :
  utf8_encode (cmd ++ [CR]) = Some wire ->
  _channel (self s) = Some TheChannel ->
  inbuf (world s) = [] ->
  Forall (fun c => c = []) (incoming (world s)) ->
  exists s', _send_command cmd s = Hang s'
             /\ sent (world s') = sent (world s) ++ [wire]
             /\ closed (world s') = closed (world s)
             /\ self s' = self s.
Proof.
  intros E C Hin Hinc. unfold _send_command. rewrite E.
  erewrite bind_Ret by reflexivity. cbv beta.
  erewrite bind_Ret by reflexivity. cbv beta. rewrite C.
  erewrite bind_Ret by reflexivity. cbv beta.
  erewrite bind_Ret by reflexivity. cbv beta.
  unfold bind at 1, wait_until_ready.
  destruct (poll_loop_silent TheChannel 500 _ Hinc
              (with_world (log_event (EvSend wire)) s) Hin eq_refl)
    as (s' & P & Hs & Hse & Hcl).
  cbn [world with_world log_event incoming] in *.
  rewrite P. exists s'. split; [reflexivity|].
  rewrite Hse, Hcl, Hs. cbn [self with_world].
  rewrite sent_log_event, closed_log_event. simpl.
  rewrite orb_false_r. auto.
Qed.

Lemma send_command_hangs_when_silent_witness :
  exists s',
    _send_command (ustr "quit") (shell_open [[]; []]) = Hang s'
    /\ sent (world s') = [blit "quit" ++ [x0d]].
Proof.
  destruct (send_command_hangs_when_silent (ustr "quit")
              (blit "quit" ++ [x0d]) (shell_open [[]; []])
              eq_refl eq_refl eq_refl
              ltac:(repeat constructor))
    as (s' & E & S & _).
  exists s'. split; [exact E | exact S].
Defined.

(** ** The four queries of identity discovery *)

Definition get_command (path : string) : bytes :=
  blit "get " ++ blit path ++ [x0d].

Lemma get_object_sent (path : string) (s : State) :
  ascii_str (ustr path) ->
  _channel (self s) = Some TheChannel ->
  sent (world (final_state (get_object (ustr path) s)))
  = sent (world s) ++ [get_command path].
Proof.
  intros A C.
  apply (proj1 (get_set_on_the_wire (ustr path) [] (blit path) [] s C
                  (eq_trans (utf8_encode_ascii _ A)
                            (f_equal Some (map_byte_ustr path)))
                  eq_refl)).
Qed.

Lemma get_object_Ret_sent (path : string) (s s1 : State) (r : str) :
  ascii_str (ustr path) ->
  _channel (self s) = Some TheChannel ->
  get_object (ustr path) s = Ret r s1 ->
  sent (world s1) = sent (world s) ++ [get_command path]
  /\ _channel (self s1) = Some TheChannel.
Proof.
  intros A C E.
  pose proof (get_object_sent path s A C) as S. rewrite E in S.
  split; [exact S|].
  assert (K : self s1 = self s)
    by exact (keeps_Ret self (_send_command _) s r s1
                (send_command_self _) E).
  rewrite K. exact C.
Qed.

(** X9.  Identity discovery asks for serial number, part number, version
    and outlet count, in this order and once each: when the four queries
    are answered, exactly these four [get] commands have been handed to the
    channel - also when a validation then fails. *)
Theorem discovery_queries (s : State) :
  _channel (self s) = Some TheChannel ->
  (exists params s1, query_objects objects [] s = Ret params s1) ->
  sent (world (final_state (_get_info s)))
  = sent (world s)
    ++ [ get_command "PDU.PowerSummary.iSerialNumber";
         get_command "PDU.PowerSummary.iPartNumber";
         get_command "PDU.PowerSummary.iVersion";
         get_command "PDU.OutletSystem.Outlet.Count" ].
Proof.
  intros C (params & s1 & Q).
  assert (S1 : sent (world s1)
               = sent (world s)
                 ++ [ get_command "PDU.PowerSummary.iSerialNumber";
                      get_command "PDU.PowerSummary.iPartNumber";
                      get_command "PDU.PowerSummary.iVersion";
                      get_command "PDU.OutletSystem.Outlet.Count" ]).
  { revert Q. unfold objects. cbn [query_objects]. intros Q.
    apply bind_Ret_inv in Q. destruct Q as (r1 & sa & Q1 & Q).
    apply bind_Ret_inv in Q. destruct Q as (r2 & sb & Q2 & Q).
    apply bind_Ret_inv in Q. destruct Q as (r3 & sc & Q3 & Q).
    apply bind_Ret_inv in Q. destruct Q as (r4 & sd & Q4 & Q).
    injection Q as _ <-.
    apply get_object_Ret_sent in Q1;
      [destruct Q1 as [E1 C1] | apply ascii_str_check; reflexivity | exact C].
    apply get_object_Ret_sent in Q2;
      [destruct Q2 as [E2 C2] | apply ascii_str_check; reflexivity | exact C1].
    apply get_object_Ret_sent in Q3;
      [destruct Q3 as [E3 C3] | apply ascii_str_check; reflexivity | exact C2].
    apply get_object_Ret_sent in Q4;
      [destruct Q4 as [E4 C4] | apply ascii_str_check; reflexivity | exact C3].
    rewrite E4, E3, E2, E1, <- !app_assoc. reflexivity. }
  unfold _get_info. erewrite bind_Ret by exact Q. cbv beta.
  match goal with
  | |- sent (world (final_state (?m s1))) = _ =>
      assert (K : keeps obs_sent m) by frame;
      specialize (K s1); unfold obs_sent in K; rewrite K
  end.
  exact S1.
Qed.

Lemma discovery_queries_witness :
  let s := shell_open
             (identity_answers "AB12CD34EF" "XX99" "01.02.2021" "24") in
  sent (world (final_state (_get_info s)))
  = [ get_command "PDU.PowerSummary.iSerialNumber";
      get_command "PDU.PowerSummary.iPartNumber";
      get_command "PDU.PowerSummary.iVersion";
      get_command "PDU.OutletSystem.Outlet.Count" ].
Proof.
  intros s. apply (discovery_queries s); [reflexivity|].
  exists (identity_info "AB12CD34EF" "XX99" "01.02.2021" "24").
  exists (final_state (query_objects objects [] s)).
  vm_compute. reflexivity.
Defined.

(** ** [login] returns *)

(** The replies stored by a successful discovery: one entry per object of
    [objects], the first three accepted by their validators. *)
Definition identity_valid (info : dict) : Prop :=
  exists serial part version count,
    info = [(serial_key, serial); (part_key, part);
            (version_key, version); (count_key, count)]
    /\ _is_serial_ok (VStr serial) = inr true
    /\ _is_part_number_ok (VStr part) = true
    /\ _is_version_ok (VStr version) = inr true.

Lemma get_info_Ret_valid (s s1 : State) (info : dict) :
  _get_info s = Ret info s1 -> identity_valid info.
Proof.
  unfold _get_info. intros E.
  apply bind_Ret_inv in E. destruct E as (params & sa & Q & E).
  apply bind_Ret_inv in E. destruct E as ([] & sb & V & E).
  injection E as <- _.
  destruct (query_objects_shape _ _ _ Q)
    as (serial & part & version & count & -> & _).
  exists serial, part, version, count. split; [reflexivity|].
  rewrite (validate_outcome
             [(serial_key, serial); (part_key, part);
              (version_key, version); (count_key, count)]
             serial part version _ _ sa
             eq_refl eq_refl eq_refl
             (version_ok_unfold version) (serial_ok_unfold serial)) in V.
  rewrite version_ok_unfold, serial_ok_unfold.
  destruct (match_bool (match_pieces version_pieces version));
    [|discriminate V].
  destruct (match_bool (match_repeat _ 10 serial)); [|discriminate V].
  destruct (_is_part_number_ok (VStr part)); [|discriminate V].
  auto.
Qed.

Lemma login_Ret_inv (s s' : State) (b : bool) :
  connect_result (world s) = None ->
  login s = Ret b s' ->
  b = true
  /\ exists s1 s2 info,
      _get_info s1 = Ret info s2
      /\ s' = with_self (set_logged_in true)
                (with_self (set_info (Some info)) s2)
      /\ _client (self s1) = Some TheClient
      /\ _channel (self s1) = Some TheChannel
      /\ exists prompt, _prompt (self s1) = Some prompt
                        /\ List.length prompt <= 4096.
Proof.
  intros C. unfold login.
  erewrite bind_Ret by reflexivity. cbv beta.
  assert (T : forall h,
             try_ (client <- ssh_connect (_host (self s)) (_user (self s))
                                         (_pass (self s)) ;;
                   ret (Some client)) h s
             = Ret (Some TheClient)
                   (with_world (log_event (EvConnect (_host (self s))
                                             (_user (self s))
                                             (_pass (self s)))) s)).
  { intros h. unfold try_, bind, ssh_connect. rewrite C. reflexivity. }
  erewrite bind_Ret by apply T. clear T. cbv beta iota.
  erewrite bind_Ret by reflexivity. cbv beta.
  match goal with
  | |- bind (wait_until_ready ?ch ?ms) ?k ?st = _ -> _ =>
      unfold bind at 1;
      destruct (wait_until_ready ch ms st) as [[] s0|e0 s0|s0]
  end; [|discriminate | discriminate].
  do 4 (erewrite bind_Ret by reflexivity; cbv beta).
  match goal with
  | |- bind _get_info ?k ?st = _ -> _ =>
      unfold bind at 1; destruct (_get_info st) as [i s2|e2 s2|s2] eqn:G;
      [| discriminate | discriminate];
      intros H; injection H as <- <-;
      split; [reflexivity|];
      exists st, s2, i
  end.
  split; [exact G|]. split; [reflexivity|].
  cbn [self world with_self set_prompt set_channel set_client
       _client _channel _prompt].
  split; [reflexivity|]. split; [reflexivity|].
  eexists. split; [reflexivity|]. apply firstn_le_length.
Qed.

(** X10.  [login] returns [True] only on a connection that was made, and
    then the object is logged in, holds client and channel, a prompt of at
    most 4096 bytes, and an identity whose version, serial number and part
    number the validators accepted.  It returns [False] only when the
    connection failed, and then the object is as before and nothing was
    sent. *)
Theorem login_result (s s' : State) (b : bool) :
  login s = Ret b s' ->
  (b = true <-> connect_result (world s) = None)
  /\ (b = true ->
      _logged_in (self s') = true
      /\ _client (self s') = Some TheClient
      /\ _channel (self s') = Some TheChannel
      /\ (exists prompt, _prompt (self s') = Some prompt
                         /\ List.length prompt <= 4096)
      /\ exists info, _info (self s') = Some info /\ identity_valid info)
  /\ (b = false ->
      self s' = self s /\ sent (world s') = sent (world s)
      /\ closed (world s') = closed (world s)).
Proof.
  intros L. destruct (connect_result (world s)) as [e|] eqn:C.
  - assert (F : b = false
                /\ exists line, s' = connect_failed line s).
    { revert L. unfold login, bind, try_, ssh_connect, get_self. rewrite C.
      destruct e as [c m|code]; [destruct c|]; intros L;
        try discriminate L; injection L as <- <-;
        (split; [reflexivity | eexists; reflexivity]). }
    destruct F as (-> & line & ->).
    split; [split; discriminate|]. split; [discriminate|].
    intros _. unfold connect_failed. cbn [self world with_world].
    unfold sent, closed. cbn [trace write_stdout log_event].
    rewrite flat_map_app, existsb_app. simpl.
    rewrite app_nil_r, orb_false_r. auto.
  - destruct (login_Ret_inv s s' b C L)
      as (-> & s1 & s2 & info & G & -> & Hc & Hch & prompt & Hp & Hl).
    pose proof (keeps_Ret self _get_info s1 info s2 get_info_self G) as K.
    split; [tauto|]. split; [|discriminate]. intros _.
    cbn [self with_self set_logged_in set_info _logged_in _client _channel
         _prompt _info].
    rewrite K.
    split; [reflexivity|]. split; [exact Hc|]. split; [exact Hch|].
    split; [exists prompt; auto|].
    exists info. split; [reflexivity|]. exact (get_info_Ret_valid s1 s2 info G).
Qed.

Lemma login_result_witness :
  let s := before_login
             (identity_answers "AB12CD34EF" "EILB13" "01.02.2021" "24") in
  let s' := final_state (login s) in
  login s = Ret true s'
  /\ _logged_in (self s') = true
  /\ _info (self s')
     = Some (identity_info "AB12CD34EF" "EILB13" "01.02.2021" "24")
  /\ exists info, _info (self s') = Some info /\ identity_valid info.
Proof.
  intros s s'.
  assert (E : login s = Ret true s') by (vm_compute; reflexivity).
  split; [exact E|].
  destruct (login_result s s' true E) as (_ & T & _).
  destruct (T eq_refl) as (Hl & _ & _ & _ & Hi).
  split; [exact Hl|]. split; [vm_compute; reflexivity | exact Hi].
Defined.

(** ** [logout] of an open session *)

Definition quit_command : bytes := blit "quit" ++ [x0d].

(** X11.  [logout] on a logged-in object with client and channel: the flag
    is cleared first, so the object is not logged in however [logout] ends;
    exactly [quit] and a carriage return is sent; when the device answers,
    [logout] returns having closed the channel and then the client as its
    last two actions; when no answer comes or the answer cannot be
    decoded, nothing is closed. *)
Theorem logout_open_session (s : State) :
  _logged_in (self s) = true ->
  _channel (self s) = Some TheChannel ->
  _client (self s) = Some TheClient ->
  let r := logout s in
  _logged_in (self (final_state r)) = false
  /\ sent (world (final_state r)) = sent (world s) ++ [quit_command]
  /\ (forall s', r = Ret tt s' ->
        exists before, trace (world s')
                       = before ++ [EvChannelClose; EvClientClose]
                       /\ existsb is_close before = closed (world s))
  /\ ((forall s', r <> Ret tt s') ->
      closed (world (final_state r)) = closed (world s)).
Proof.
  intros L C Cl r. subst r.
  split; [apply logout_clears_flag|].
  set (s0 := with_self (set_logged_in false) s).
  assert (C0 : _channel (self s0) = Some TheChannel) by exact C.
  pose proof (send_command_sent (ustr "quit") quit_command s0 eq_refl C0)
    as S.
  pose proof (send_command_self (ustr "quit") s0) as Ks.
  pose proof (send_command_closed (ustr "quit") s0) as Kc.
  unfold obs_closed in Kc.
  assert (U : logout s
              = match _send_command (ustr "quit") s0 with
                | Ret _ s1 =>
                    Ret tt (with_world (log_event EvClientClose)
                              (with_world (log_event EvChannelClose) s1))
                | Raise e s1 => Raise e s1
                | Hang s1 => Hang s1
                end).
  { unfold logout. erewrite bind_Ret by reflexivity. cbv beta.
    rewrite L. erewrite bind_Ret by reflexivity. cbv beta.
    fold s0. unfold bind at 1.
    destruct (_send_command (ustr "quit") s0) as [reply s1|e s1|s1];
      cbn [final_state] in Ks; try reflexivity.
    erewrite bind_Ret by reflexivity. cbv beta.
    rewrite Ks. cbn [self s0 with_self set_logged_in _channel _client].
    rewrite C, Cl. reflexivity. }
  rewrite U. clear U.
  destruct (_send_command (ustr "quit") s0) as [reply s1|e s1|s1];
    cbn [final_state] in *.
  - split.
    + cbn [world with_world]. rewrite !sent_log_event. cbn.
      rewrite !app_nil_r. exact S.
    + split.
      * intros s' R.
        assert (Es : s' = with_world (log_event EvClientClose)
                            (with_world (log_event EvChannelClose) s1))
          by congruence.
        subst s'.
        exists (trace (world s1)). cbn [world with_world trace log_event].
        rewrite <- app_assoc. split; [reflexivity | exact Kc].
      * intros N. exfalso. exact (N _ eq_refl).
  - split; [exact S|]. split; [discriminate|].
    intros _. exact Kc.
  - split; [exact S|]. split; [discriminate|].
    intros _. exact Kc.
Qed.

Lemma logout_open_session_witness :
  let s := logged_in "24" [device_answer "quit" ""] in
  sent (world (final_state (logout s))) = [quit_command]
  /\ _logged_in (self (final_state (logout s))) = false
  /\ closed (world (final_state (logout s))) = true.
Proof.
  intros s.
  destruct (logout_open_session s eq_refl eq_refl eq_refl)
    as (F & S & R & _).
  split; [exact S|]. split; [exact F|].
  destruct (R (final_state (logout s))) as (before & T & _).
  - vm_compute. reflexivity.
  - unfold closed. rewrite T, existsb_app. simpl.
    apply orb_true_r.
Defined.

(** ** What the outlet loops send and print *)

Definition obs_stdout (s : State) : list str := stdout (world s).

Lemma sleep_stdout ms : keeps obs_stdout (sleep ms).
Proof.
  intros s; unfold obs_stdout, sleep; simpl.
  destruct (incoming (world s)); reflexivity.
Qed.
Lemma recv_ready_stdout ch : keeps obs_stdout (recv_ready ch).
Proof. intros s; reflexivity. Qed.
Lemma channel_recv_stdout ch n : keeps obs_stdout (channel_recv ch n).
Proof. intros s; reflexivity. Qed.
Lemma channel_send_stdout ch d : keeps obs_stdout (channel_send ch d).
Proof. intros s; reflexivity. Qed.
Lemma wait_stdout ch ms : keeps obs_stdout (wait_until_ready ch ms).
Proof.
  apply wait_until_ready_keeps;
    [apply recv_ready_stdout | apply sleep_stdout].
Qed.
#[export] Hint Resolve sleep_stdout recv_ready_stdout channel_recv_stdout
  channel_send_stdout wait_stdout : frames.

Lemma send_command_stdout cmd : keeps obs_stdout (_send_command cmd).
Proof. unfold _send_command. frame. Qed.
#[export] Hint Resolve send_command_stdout : frames.

Lemma turn_on_outlet_keeps {B} (f : State -> B) (n : Z) :
  (forall cmd, keeps f (_send_command cmd)) -> keeps f (turn_on_outlet n).
Proof.
  intros K. unfold turn_on_outlet, outlet_option, set_object. frame.
Qed.

Lemma turn_off_outlet_keeps {B} (f : State -> B) (n : Z) :
  (forall cmd, keeps f (_send_command cmd)) -> keeps f (turn_off_outlet n).
Proof.
  intros K. unfold turn_off_outlet, outlet_option, set_object. frame.
Qed.

Definition index_in_range (count n : Z) : bool := ((1 <=? n) && (n <=? count))%Z.

Section OutletRun.
Context `{UnicodeDB}.

(** [number_of_outlets] reads the object only. *)
Lemma number_of_outlets_self (s s1 : State) (count : Z) :
  number_of_outlets s = Ret count s -> self s1 = self s ->
  number_of_outlets s1 = Ret count s1.
Proof.
  unfold number_of_outlets, bind, get_self, lift_opt, lift, ret, raise.
  intros E S. rewrite S.
  destruct (_info (self s)) as [info|]; [|discriminate E].
  destruct (dict_getitem info _) as [e|cnt]; [discriminate E|].
  destruct (py_int cnt) as [e|z]; [discriminate E|].
  injection E as ->. reflexivity.
Qed.

Variable action : Z -> M unit.
Variable command : Z -> bytes.
Hypothesis action_self : forall n, keeps self (action n).
Hypothesis action_stdout : forall n, keeps obs_stdout (action n).
Hypothesis action_sent :
  forall n s, _channel (self s) = Some TheChannel ->
              sent (world (final_state (action n s)))
              = sent (world s) ++ [command n].

Lemma for_outlets_run (count : Z) (nums : list Z) :
  forall s s',
    number_of_outlets s = Ret count s ->
    _channel (self s) = Some TheChannel ->
    for_outlets action nums s = Ret tt s' ->
    sent (world s')
    = sent (world s) ++ map command (filter (index_in_range count) nums)
    /\ stdout (world s')
       = stdout (world s)
         ++ map no_such_outlet
              (filter (fun n => negb (index_in_range count n)) nums)
    /\ self s' = self s.
Proof.
  induction nums as [|n rest IH]; intros s s' N C R.
  - injection R as <-. simpl. rewrite !app_nil_r. auto.
  - cbn [for_outlets] in R.
    apply bind_Ret_inv in R. destruct R as ([] & s1 & St & R).
    cbn [filter]. destruct (index_in_range count n) eqn:I; cbn [negb map].
    + unfold index_in_range in I. apply andb_true_iff in I.
      destruct I as [I1 I2]. apply Z.leb_le in I1, I2.
      assert (O : out_of_range n s = Ret false s).
      { rewrite (out_of_range_counted n count s I1 N).
        assert (F : (count <? n)%Z = false) by (apply Z.ltb_ge; exact I2).
        rewrite F. reflexivity. }
      rewrite (outlet_step_act action n s O) in St.
      pose proof (keeps_Ret self (action n) s tt s1 (action_self n) St) as Ks.
      pose proof (keeps_Ret obs_stdout (action n) s tt s1
                    (action_stdout n) St) as Ko.
      pose proof (action_sent n s C) as Se. rewrite St in Se.
      cbn [final_state] in Se. unfold obs_stdout in Ko.
      destruct (IH s1 s' (number_of_outlets_self s s1 count N Ks)
                  ltac:(rewrite Ks; exact C) R) as (E1 & E2 & E3).
      rewrite E1, E2, E3, Se, Ko, Ks, <- app_assoc. auto.
    + assert (O : out_of_range n s = Ret true s).
      { destruct (Z.lt_ge_cases n 1) as [L|L].
        - apply out_of_range_below; exact L.
        - rewrite (out_of_range_counted n count s L N).
          unfold index_in_range in I. apply andb_false_iff in I.
          destruct I as [I|I]; [apply Z.leb_gt in I; lia|].
          apply Z.leb_gt in I. apply Z.ltb_lt in I. rewrite I. reflexivity. }
      rewrite (outlet_step_skip action n s O) in St.
      injection St as <-.
      destruct (IH _ s'
                  (number_of_outlets_self s
                     (with_world (write_stdout (no_such_outlet n)) s)
                     count N eq_refl) C R) as (E1 & E2 & E3).
      rewrite E1, E2, E3. cbn [world with_world stdout write_stdout self].
      rewrite <- app_assoc. auto.
Qed.

End OutletRun.

Definition on_command (n : Z) : bytes :=
  blit "set PDU.OutletSystem.Outlet[" ++ decimal n
  ++ blit "].DelayBeforeStartup 0" ++ [x0d].

Definition off_command (n : Z) : bytes :=
  blit "set PDU.OutletSystem.Outlet[" ++ decimal n
  ++ blit "].DelayBeforeShutdown 0" ++ [x0d].



(** ** [show_information] *)

(** The line printed for an entry: key, a colon and a blank, value. *)
Definition info_line (entry : str * str) : str :=
  fst entry ++ ustr ": " ++ snd entry.

(** The state after printing [lines], one after the other. *)
Definition printed (lines : list str) (s : State) : State :=
  fold_left (fun st line => with_world (write_stdout line) st) lines s.

Lemma printed_stdout (lines : list str) (s : State) :
  stdout (world (printed lines s)) = stdout (world s) ++ lines
  /\ trace (world (printed lines s)) = trace (world s)
  /\ self (printed lines s) = self s.
Proof.
  revert s. induction lines as [|l lines IH]; intros s; simpl.
  - rewrite app_nil_r. auto.
  - destruct (IH (with_world (write_stdout l) s)) as (E1 & E2 & E3).
    unfold printed in *. rewrite E1, E2, E3. simpl.
    rewrite <- app_assoc. auto.
Qed.

Lemma print_items_prints (items : dict) (s : State) :
  print_items items s = Ret tt (printed (map info_line items) s).
Proof.
  revert s. induction items as [|[k v] items IH]; intros s; simpl.
  - reflexivity.
  - change (str_format (ustr "{}: {}") [k; v])
      with (Some (k ++ ustr ": " ++ (v ++ []))).
    rewrite app_nil_r.
    erewrite bind_Ret by reflexivity. cbv beta.
    erewrite bind_Ret by reflexivity. cbv beta.
    apply IH.
Qed.

(** X13.  [show_information] prints one line [key: value] for each entry
    of the stored identity, in the order in which the entries were stored,
    and does nothing else; on an object without identity (never logged
    in) it raises [TypeError] and prints nothing. *)
Theorem show_information_prints (s : State) :
  (forall info, _info (self s) = Some info ->
     show_information s = Ret tt (printed (map info_line info) s)
     /\ stdout (world (printed (map info_line info) s))
        = stdout (world s) ++ map info_line info
     /\ trace (world (printed (map info_line info) s)) = trace (world s))
  /\ (_info (self s) = None ->
      show_information s
      = Raise (Exn TypeError (ustr "'NoneType' object is not iterable")) s).
Proof.
  split.
  - intros info I. unfold show_information.
    erewrite bind_Ret by reflexivity. cbv beta. rewrite I.
    erewrite bind_Ret by reflexivity. cbv beta.
    rewrite print_items_prints.
    destruct (printed_stdout (map info_line info) s) as (E1 & E2 & _).
    auto.
  - intros I. unfold show_information.
    erewrite bind_Ret by reflexivity. cbv beta. rewrite I. reflexivity.
Qed.

Lemma show_information_prints_witness :
  let s := logged_in "24" [] in
  stdout (world (final_state (show_information s)))
  = [ ustr "PDU.PowerSummary.iSerialNumber: AB12CD34EF";
      ustr "PDU.PowerSummary.iPartNumber: EILB13";
      ustr "PDU.PowerSummary.iVersion: 01.02.2021";
      ustr "PDU.OutletSystem.Outlet.Count: 24" ].
Proof.
  intros s.
  destruct (proj1 (show_information_prints s)
              (identity_info "AB12CD34EF" "EILB13" "01.02.2021" "24")
              eq_refl) as (E & S & _).
  rewrite E. cbn [final_state]. rewrite S. reflexivity.
Defined.

(** ** [main]: the early exits *)

Definition requested (args : Args) : bool :=
  truthy (on args) || truthy (off args) || info args.

(** X14.  When neither [--on], [--off] nor [--info] is given, [main] exits
    with status 0 at once: no object is made, no connection attempted,
    nothing printed. *)
Theorem main_nothing_requested `{UnicodeDB} (args : Args) (s : State) :
  requested args = false -> main args s = Raise (SystemExit 0) s.
Proof.
  unfold requested. intros R.
  apply orb_false_iff in R. destruct R as [R I].
  apply orb_false_iff in R. destruct R as [R1 R2].
  unfold main. rewrite R1, R2, I. reflexivity.
Qed.

Lemma main_nothing_requested_witness :
  let args := {| address := ustr "10.0.0.7"; password := ustr "admin";
                 username := ustr "admin"; on := None; off := Some [];
                 info := false |} in
  main (H := ascii_only) args (before_login [])
  = Raise (SystemExit 0) (before_login []).
Proof.
  intros args.
  apply (@main_nothing_requested ascii_only args (before_login [])).
  reflexivity.
Defined.

Definition caught (c : exn_class) : bool :=
  match c with
  | socket_timeout | BadHostKeyException | AuthenticationException
  | SSHException => true
  | _ => false
  end.

(** X15.  When something is requested and the connection fails with one
    of the exceptions [login] catches, [main] exits with status 1 after the
    message of [login]: nothing is sent to a device, and no [logout] line
    is printed. *)
Theorem main_connection_failure `{UnicodeDB} (args : Args) (s : State)
        (c : exn_class) (msg : str) :
  requested args = true ->
  connect_result (world s) = Some (Exn c msg) ->
  caught c = true ->
  exists line,
    main args s
    = Raise (SystemExit 1)
        (connect_failed line
           (with_self (fun _ => ePDU_init (address args) (username args)
                                          (password args)) s))
    /\ (line = address args ++ ustr " time out"
        \/ line = ustr "Server host key could not be verified: " ++ msg
        \/ line = ustr "Authentication failed: " ++ address args
        \/ line = ustr "Unable to establish SSH connection: " ++ msg).
Proof.
  intros R E Hc.
  set (s0 := with_self (fun _ => ePDU_init (address args) (username args)
                                           (password args)) s).
  assert (E0 : connect_result (world s0) = Some (Exn c msg)) by exact E.
  assert (M : forall line,
             login s0 = Ret false (connect_failed line s0) ->
             main args s = Raise (SystemExit 1) (connect_failed line s0)).
  { intros line L. unfold main.
    unfold requested in R.
    destruct (negb (truthy (on args)) && negb (truthy (off args))
              && negb (info args)) eqn:Q.
    - exfalso. apply andb_true_iff in Q. destruct Q as [Q Q3].
      apply andb_true_iff in Q. destruct Q as [Q1 Q2].
      apply negb_true_iff in Q1, Q2, Q3. rewrite Q1, Q2, Q3 in R.
      discriminate R.
    - erewrite bind_Ret by reflexivity. cbv beta. fold s0.
      erewrite bind_Ret by exact L. reflexivity. }
  destruct (login_connection_failure s0 msg) as (L1 & L2 & L3 & L4 & _).
  destruct c; try discriminate Hc.
  - eexists. split; [apply M; apply L1; exact E0|]. left. reflexivity.
  - eexists. split; [apply M; apply L2; exact E0|]. right; left. reflexivity.
  - eexists. split; [apply M; apply L3; exact E0|].
    right; right; left. reflexivity.
  - eexists. split; [apply M; apply L4; exact E0|].
    right; right; right. reflexivity.
Qed.

Lemma main_connection_failure_witness :
  let args := {| address := ustr "10.0.0.7"; password := ustr "wrong";
                 username := ustr "admin"; on := Some [1%Z]; off := None;
                 info := false |} in
  let s := refusing (Exn socket_timeout []) in
  raised (main (H := ascii_only) args s) = Some (SystemExit 1)
  /\ stdout (world (final_state (main (H := ascii_only) args s)))
     = [ustr "10.0.0.7 time out"].
Proof.
  intros args s.
  destruct (@main_connection_failure ascii_only args s socket_timeout []
              eq_refl eq_refl eq_refl) as (line & E & _).
  split.
  - rewrite E. reflexivity.
  - vm_compute. reflexivity.
Defined.

(** ** Methods on an object that never logged in *)

Lemma send_command_needs_channel (cmd : str) (s : State) :
  _channel (self s) = None ->
  (exists wire, utf8_encode (cmd ++ [CR]) = Some wire) ->
  _send_command cmd s = Raise (no_attribute "send") s.
Proof.
  intros C (wire & E). unfold _send_command. rewrite E.
  erewrite bind_Ret by reflexivity. cbv beta.
  erewrite bind_Ret by reflexivity. cbv beta.
  rewrite C. reflexivity.
Qed.

Lemma outlet_command_encodes (before after : string) (n : Z) :
  ascii_str (ustr before) -> ascii_str (ustr after) ->
  exists wire,
    utf8_encode ((ustr "set " ++ (ustr before ++ str_of_int n ++ ustr after)
                  ++ ustr " " ++ ustr "0") ++ [CR]) = Some wire.
Proof.
  intros Hb Ha. eexists. apply utf8_encode_ascii.
  repeat apply ascii_str_app; auto using str_of_int_ascii;
    apply ascii_str_check; reflexivity.
Qed.


